(** * srs-resolver: a shallow embedding of the request pipeline

    The program is a small TCP service (Go, [package main]) that decodes
    SRS0/SRS1 rewritten envelope senders.  This development embeds

    - the parts of Go's [strings] package the program calls, on byte
      strings (a Go [string] is a sequence of bytes; [len] counts bytes);
    - [decodeSRS], [isCleanEmail] and [handle], the request pipeline;
    - [dropPrivileges] and [main], the startup sequence, as a program in a
      small monad that threads the process identity, records the calls the
      program makes to its environment and stops at the first fatal error.

    Definitions keep the names of the source. *)

From Stdlib Require Import Bool Arith Lia List ZArith.
From Stdlib Require Import Strings.Ascii Strings.String.
Import ListNotations.

Local Open Scope list_scope.
Local Open Scope string_scope.

(** ** Go values *)

(** A Go call returning [(T, error)]: either the value or the error,
    the latter kept as the text of its message. *)
Inductive result (A : Type) : Type :=
| Ok (a : A)
| Err (msg : string).
Arguments Ok {A} a.
Arguments Err {A} msg.

Definition is_err {A} (r : result A) : bool :=
  match r with Ok _ => false | Err _ => true end.

(** The newline byte, ['\n'] in the source. *)
Definition LF : ascii := "010"%char.
Definition nl : string := String LF "".

(** ** Package [strings], on bytes *)

Module strings.

(** [strings.HasPrefix(s, prefix)]. *)
Fixpoint HasPrefix (s prefix : string) : bool :=
  match prefix, s with
  | EmptyString, _ => true
  | String _ _, EmptyString => false
  | String p prefix', String c s' => Ascii.eqb c p && HasPrefix s' prefix'
  end.

(** [strings.IndexByte(s, c) >= 0]; the program calls [strings.Contains]
    only with the one-byte substrings ["@"] and ["."]. *)
Fixpoint Contains (s : string) (c : ascii) : bool :=
  match s with
  | EmptyString => false
  | String a s' => Ascii.eqb a c || Contains s' c
  end.

(** [strings.ContainsAny(s, chars)] for a set [chars] of ASCII bytes: some
    byte of [s] is one of [chars].  (Every byte of a multi-byte UTF-8
    sequence is at least 0x80, so looking at bytes and looking at code
    points find the same ASCII characters.) *)
Fixpoint ContainsAny (s chars : string) : bool :=
  match s with
  | EmptyString => false
  | String a s' => Contains chars a || ContainsAny s' chars
  end.

(** [strings.Count(s, sep)] for a one-byte [sep]. *)
Fixpoint Count (s : string) (sep : ascii) : nat :=
  match s with
  | EmptyString => 0
  | String a s' => (if Ascii.eqb a sep then 1 else 0) + Count s' sep
  end.

(** One round of the loop of [genSplit]: [m := Index(s, sep)], and when
    [m >= 0] the pair [(s[:m], s[m+len(sep):])]. *)
Fixpoint cut (s : string) (sep : ascii) : option (string * string) :=
  match s with
  | EmptyString => None
  | String a s' =>
      if Ascii.eqb a sep then Some (EmptyString, s')
      else match cut s' sep with
           | Some (before, after) => Some (String a before, after)
           | None => None
           end
  end.

(** The loop of [genSplit]: at most [cuts] separators are consumed
    ([cuts] is [n - 1] in the source), the rest of the string is the last
    element. *)
Fixpoint genSplit (s : string) (sep : ascii) (cuts : nat) : list string :=
  match cuts with
  | 0 => [s]
  | S k => match cut s sep with
           | None => [s]
           | Some (before, after) => before :: genSplit after sep k
           end
  end.

(** [strings.SplitN(s, sep, n)] for [n >= 0] and a one-byte [sep]:
    [nil] when [n = 0]; [n] is first clamped to [len(s) + 1]. *)
Definition SplitN (s : string) (sep : ascii) (n : nat) : list string :=
  match Nat.min n (S (String.length s)) with
  | 0 => []
  | S cuts => genSplit s sep cuts
  end.

(** [strings.Split(s, sep)], that is [genSplit(s, sep, 0, -1)]: a negative
    [n] is replaced by [Count(s, sep) + 1]. *)
Definition Split (s : string) (sep : ascii) : list string :=
  genSplit s sep (Count s sep).

(** [asciiSpace]: the bytes ['\t'], ['\n'], ['\v'], ['\f'], ['\r'], [' ']. *)
Definition asciiSpace (c : ascii) : bool :=
  let n := nat_of_ascii c in
  (((9 <=? n) && (n <=? 13)) || (n =? 32))%nat.

(** The two-byte UTF-8 encodings of white space: U+0085 (C2 85) and
    U+00A0 (C2 A0). *)
Definition space2 (a b : ascii) : bool :=
  ((nat_of_ascii a =? 194) &&
   ((nat_of_ascii b =? 133) || (nat_of_ascii b =? 160)))%nat.

(** The three-byte UTF-8 encodings of white space: U+1680 (E1 9A 80),
    U+2000..U+200A (E2 80 80..8A), U+2028, U+2029 (E2 80 A8, A9),
    U+202F (E2 80 AF), U+205F (E2 81 9F), U+3000 (E3 80 80). *)
Definition space3 (a b c : ascii) : bool :=
  let a := nat_of_ascii a in
  let b := nat_of_ascii b in
  let c := nat_of_ascii c in
  (((a =? 225) && (b =? 154) && (c =? 128)) ||
   ((a =? 226) && (b =? 128) &&
      (((128 <=? c) && (c <=? 138)) || (c =? 168) || (c =? 169) || (c =? 175))) ||
   ((a =? 226) && (b =? 129) && (c =? 159)) ||
   ((a =? 227) && (b =? 128) && (c =? 128)))%nat.

(** [strings.TrimLeftFunc(s, unicode.IsSpace)]: the runes of [s] are
    decoded from the left and dropped while they are white space.  A white
    space rune is decoded exactly from its (shortest) UTF-8 encoding; any
    other byte sequence, valid or not, decodes to a rune that is not white
    space and stops the loop. *)
Fixpoint TrimLeftSpace (s : string) : string :=
  match s with
  | EmptyString => EmptyString
  | String a r =>
      if asciiSpace a then TrimLeftSpace r
      else match r with
           | EmptyString => s
           | String b r2 =>
               if space2 a b then TrimLeftSpace r2
               else match r2 with
                    | EmptyString => s
                    | String c r3 =>
                        if space3 a b c then TrimLeftSpace r3 else s
                    end
           end
  end.

(** The same loop from the right, on the reversed string: the last rune
    is white space exactly when the string ends with the encoding of a
    white space rune ([utf8.DecodeLastRuneInString] steps back to the
    nearest start byte and checks that the rune decoded there ends the
    string). *)
Fixpoint TrimLeftSpace_rev (s : string) : string :=
  match s with
  | EmptyString => EmptyString
  | String a r =>
      if asciiSpace a then TrimLeftSpace_rev r
      else match r with
           | EmptyString => s
           | String b r2 =>
               if space2 b a then TrimLeftSpace_rev r2
               else match r2 with
                    | EmptyString => s
                    | String c r3 =>
                        if space3 c b a then TrimLeftSpace_rev r3 else s
                    end
           end
  end.

Fixpoint rev_append (s acc : string) : string :=
  match s with
  | EmptyString => acc
  | String a s' => rev_append s' (String a acc)
  end.

Definition rev (s : string) : string := rev_append s EmptyString.

(** [strings.TrimRightFunc(s, unicode.IsSpace)]. *)
Definition TrimRightSpace (s : string) : string :=
  rev (TrimLeftSpace_rev (rev s)).

(** [strings.TrimSpace(s)]: all leading and trailing Unicode white space
    removed.  The source's fast path for ASCII and its fall back to
    [TrimFunc]/[TrimRightFunc] compute this same string. *)
Definition TrimSpace (s : string) : string :=
  TrimRightSpace (TrimLeftSpace s).

End strings.

(** [s[n:]] for [n <= len(s)] (Go panics beyond; [handle] slices at 4
    only after [HasPrefix(line, "get ")]). *)
Fixpoint slice_from (n : nat) (s : string) : string :=
  match n, s with
  | 0, _ => s
  | S _, EmptyString => EmptyString
  | S k, String _ s' => slice_from k s'
  end.

(** ** The decoder and the clean-email check *)

(** The constant [notAllowedChars]: space, [<>(),;=] and the double quote
    (byte 34). *)
Definition notAllowedChars : string :=
  " <>(),;=" ++ String "034" EmptyString.

(** [decodeSRS]: split on the first four ["="], fail unless five parts
    result; part 3 is the domain and part 4 the local part, cut at its
    first ["@"] when it has one. *)
Definition decodeSRS (srs : string) : result string :=
  let parts := strings.SplitN srs "=" 5 in
  if negb (List.length parts =? 5)%nat then
    Err "SRS format - wrong number of parts"
  else
    let domain := nth 3 parts EmptyString in
    let local := nth 4 parts EmptyString in
    if strings.Contains local "@" then
      let user := nth 0 (strings.Split local "@") EmptyString in
      Ok (user ++ "@" ++ domain)
    else
      Ok (local ++ "@" ++ domain).

(** [isCleanEmail]. *)
Definition isCleanEmail (s : string) : bool :=
  if strings.ContainsAny s notAllowedChars then false
  else if negb (strings.Count s "@" =? 1)%nat then false
  else
    let parts := strings.Split s "@" in
    if ((String.length (nth 0 parts EmptyString) =? 0)
        || (String.length (nth 1 parts EmptyString) <? 3))%nat then false
    else if negb (strings.Contains (nth 1 parts EmptyString) ".") then false
    else true.

(** ** The connection handler *)

Inductive LogLevel : Type := LogError | LogInfo | LogDebug.

(** The configuration record, as [LoadConfig] fills it from the TOML file. *)
Record Config : Type := {
  Listen : string;
  LogFile : string;
  LogLevel_ : string;
  FallbackAddress : string;
  DropUser : string;
  DropGroup : string
}.

(** An accepted connection, seen from the handler: the bytes the peer sends
    before the stream ends (end of file or an I/O error).  A peer that
    sends no newline and keeps the stream open blocks the read for ever
    (there is no deadline); the model covers the reads that return. *)
Record Conn : Type := { incoming : string }.

(** [bufio.Reader.ReadString(delim)] on a fresh reader: the bytes up to and
    including the first [delim]; an error when the stream ends before a
    [delim] is seen (the partial data is dropped by the caller). *)
Definition ReadString (c : Conn) (delim : ascii) : result string :=
  match strings.cut (incoming c) delim with
  | Some (before, _) => Ok (before ++ String delim EmptyString)
  | None => Err "EOF"
  end.

(** What a handler does to the outside: calls of the logging helpers
    [logError], [logInfo], [logDebug] (format and arguments; whether the
    line is printed depends on [currentLogLevel]), the payload of each
    [fmt.Fprintf(conn, ...)], and [conn.Close()]. *)
Inductive event : Type :=
| EvLog (level : LogLevel) (format : string) (args : list string)
| EvWrite (payload : string)
| EvClose.

(** The arrow of the format string on the success path, U+2192 in UTF-8. *)
Definition arrow : string := String "226" (String "134" (String "146" EmptyString)).

(** [handle], without its deferred [conn.Close()]. *)
Definition handle_body (conn : Conn) (cfg : Config) : list event :=
  match ReadString conn LF with
  | Err _ => [EvWrite ("500 read error" ++ nl)]
  | Ok line =>
      let line := strings.TrimSpace line in
      if negb (strings.HasPrefix line "get ") then
        [EvWrite ("500 invalid request" ++ nl)]
      else
        let address := strings.TrimSpace (slice_from 4 line) in
        if negb (strings.HasPrefix address "SRS0=")
           && negb (strings.HasPrefix address "SRS1=") then
          if isCleanEmail address then
            [EvLog LogDebug "Address: %s, no decoding required" [address];
             EvWrite ("200 " ++ address ++ nl)]
          else if negb (FallbackAddress cfg =? "") then
            [EvLog LogError "Invalid address: %s, returning fallback_address: %s"
                   [address; FallbackAddress cfg];
             EvWrite ("200 " ++ FallbackAddress cfg ++ nl)]
          else
            [EvLog LogError
                   "Invalid address: %s, no fallback_address set, 500 invalid request"
                   [address];
             EvWrite ("500 invalid request" ++ nl)]
        else
          match decodeSRS address with
          | Err err =>
              if negb (FallbackAddress cfg =? "") then
                [EvLog LogError "Invalid SRS: %s (%v), returning fallback_address: %s"
                       [address; err; FallbackAddress cfg];
                 EvWrite ("200 " ++ FallbackAddress cfg ++ nl)]
              else
                [EvLog LogError
                       "Invalid SRS: %s (%v), no fallback_address set, 500 invalid request"
                       [address; err];
                 EvWrite ("500 invalid request" ++ nl)]
          | Ok decoded =>
              [EvLog LogInfo ("Resolved: %s " ++ arrow ++ " %s") [address; decoded];
               EvWrite ("200 " ++ decoded ++ nl)]
          end
  end.

(** [handle]: the body, then the deferred close on every return. *)
Definition handle (conn : Conn) (cfg : Config) : list event :=
  (handle_body conn cfg ++ [EvClose])%list.

(** The payloads written to the connection, in order. *)
Fixpoint responses (tr : list event) : list string :=
  match tr with
  | [] => []
  | EvWrite p :: tr' => p :: responses tr'
  | _ :: tr' => responses tr'
  end.

Definition cfg0 (fallback : string) : Config :=
  {| Listen := "127.0.0.1:10022"; LogFile := ""; LogLevel_ := "info";
     FallbackAddress := fallback; DropUser := ""; DropGroup := "" |}.

(** ** Startup: [dropPrivileges] and [main] *)

(** The identity of the process that the startup sequence changes. *)
Record Proc : Type := { euid : Z; egid : Z }.

(** [user.User] and [user.Group], the fields the program reads. *)
Record User : Type := { Username : string; Uid : string }.
Record Group : Type := { Name : string; Gid : string }.

(** The answers of the libraries and of the operating system to the
    calls of the startup sequence.  [user_LookupId] and
    [user_LookupGroupId] stand for the lookup of [strconv.Itoa(id)];
    [accepted] lists the outcomes of the successive [ln.Accept()] calls
    that are observed (the loop itself never ends). *)
Record World : Type := {
  flag_v : bool;
  flag_version : bool;
  flag_logtostdout : bool;
  toml_DecodeFile : string -> result Config;
  os_OpenFile : string -> option string;
  user_LookupGroup : string -> result Group;
  user_Lookup : string -> result User;
  strconv_Atoi : string -> result Z;
  syscall_Setgid : Z -> option string;
  syscall_Setuid : Z -> option string;
  user_LookupId : Z -> result User;
  user_LookupGroupId : Z -> result Group;
  net_Listen : string -> option string;
  accepted : list (result Conn)
}.

(** What the startup sequence does to the outside, in order. *)
Inductive sysevent : Type :=
| SysPrintln (args : list string)
| SysDecodeFile (path : string)
| SysOpenFile (path : string)
| SysLog (level : LogLevel) (format : string) (args : list string)
| SysFatal (format : string) (args : list string)
| SysExit (code : Z)
| SysEnter_dropPrivileges (targetUser targetGroup : string)
| SysSetgid (gid : Z)
| SysSetuid (uid : Z)
| SysListen (address : string) (bound : bool)
| SysAccept (conn : option Conn)
| SysGo_handle (conn : Conn).

(** A computation of the startup sequence: from the identity of the
    process to the events it causes, the new identity, and its value or
    the error that stopped it. *)
Definition M (A : Type) : Type :=
  Proc -> list sysevent * Proc * result A.

Definition ret {A} (a : A) : M A := fun p => ([], p, Ok a).

Definition bind {A B} (m : M A) (f : A -> M B) : M B :=
  fun p =>
    match m p with
    | (t1, p1, Ok a) =>
        match f a p1 with (t2, p2, r) => ((t1 ++ t2)%list, p2, r) end
    | (t1, p1, Err e) => (t1, p1, Err e)
    end.

Definition emit (e : sysevent) : M unit := fun p => ([e], p, Ok tt).
Definition lift {A} (r : result A) : M A := fun p => ([], p, r).
Definition getproc : M Proc := fun p => ([], p, Ok p).

(** Runs [m] and hands its error to the caller as a value,
    as in [if err := f(); err != nil]. *)
Definition attempt {A} (m : M A) : M (result A) :=
  fun p => match m p with (t, p', r) => (t, p', Ok r) end.

Declare Scope startup_scope.
Delimit Scope startup_scope with startup.
Notation "x <- m ;; k" := (bind m (fun x => k))
  (at level 61, m at next level, right associativity) : startup_scope.
Notation "m ;; k" := (bind m (fun _ => k))
  (at level 61, right associativity) : startup_scope.

(** [fmt.Errorf(prefix + "%v", err)] on the error of [r]. *)
Definition Errorf {A} (prefix : string) (r : result A) : result A :=
  match r with Ok a => Ok a | Err e => Err (prefix ++ e) end.

Definition logError (format : string) (args : list string) : M unit :=
  emit (SysLog LogError format args).
Definition logInfo (format : string) (args : list string) : M unit :=
  emit (SysLog LogInfo format args).

(** [os.Exit(code)]: nothing of the program runs after it. *)
Definition exit {A} (code : Z) : M A :=
  fun p => ([SysExit code], p, Err "exit").

(** [logFatal]: [log.Fatalf], that is the message and then [os.Exit(1)]. *)
Definition logFatal {A} (format : string) (args : list string) : M A :=
  fun p => ([SysFatal format args; SysExit 1%Z], p, Err "exit").

(** The program proper, against the answers [w] of its environment.  The
    model starts after [flag.Parse()]. *)
Section Startup.

Variable w : World.

Local Open Scope startup_scope.

(** [syscall.Setgid] and [syscall.Setuid]; on success the effective
    identity is the new one. *)
Definition Setgid (gid : Z) : M unit :=
  fun p =>
    match syscall_Setgid w gid with
    | None => ([SysSetgid gid], {| euid := euid p; egid := gid |}, Ok tt)
    | Some e => ([SysSetgid gid], p, Err ("setgid failed: " ++ e))
    end.

Definition Setuid (uid : Z) : M unit :=
  fun p =>
    match syscall_Setuid w uid with
    | None => ([SysSetuid uid], {| euid := uid; egid := egid p |}, Ok tt)
    | Some e => ([SysSetuid uid], p, Err ("setuid failed: " ++ e))
    end.

Definition dropPrivileges (targetUser targetGroup : string)
  : M unit :=
  emit (SysEnter_dropPrivileges targetUser targetGroup) ;;
  (* set GID section *)
  (if negb (targetGroup =? "") then
     g <- lift (Errorf "lookup group: " (user_LookupGroup w targetGroup)) ;;
     gid <- lift (Errorf "bad GID: " (strconv_Atoi w (Gid g))) ;;
     Setgid gid
   else ret tt) ;;
  (* set UID section *)
  (if negb (targetUser =? "") then
     u <- lift (Errorf "lookup user: " (user_Lookup w targetUser)) ;;
     uid <- lift (Errorf "bad UID: " (strconv_Atoi w (Uid u))) ;;
     Setuid uid
   else ret tt) ;;
  (* check UId/GId section *)
  p <- getproc ;;
  newUser <- lift (Errorf "lookup new user: " (user_LookupId w (euid p))) ;;
  newGroup <- lift (Errorf "lookup new group: " (user_LookupGroupId w (egid p))) ;;
  (if Username newUser =? "root" then
     logError "Warning! Running as root user! Not dropping privileges! Be careful!" []
   else ret tt) ;;
  (if Name newGroup =? "root" then
     logError "Warning! Running as root group! Not dropping privileges! Be careful!" []
   else ret tt) ;;
  logInfo "Running as user: %s (UID %s), group: %s (GID %s)"
          [Username newUser; Uid newUser; Name newGroup; Gid newGroup].

Definition LoadConfig (path : string) : M Config :=
  emit (SysDecodeFile path) ;; lift (toml_DecodeFile w path).

(** [InitLogging], its log file: the file is opened unless the flag
    [-logtostdout] is given or no file is configured.  (The choice of
    [currentLogLevel] is not part of the model: the trace records the
    calls of the logging helpers, whatever the level.) *)
Definition InitLogging (cfg : Config) : M unit :=
  if negb (LogFile cfg =? "") && negb (flag_logtostdout w) then
    emit (SysOpenFile (LogFile cfg)) ;;
    match os_OpenFile w (LogFile cfg) with
    | Some err => lift (Err err)
    | None => ret tt
    end
  else ret tt.

Definition version : string := "1.0.0".

Definition banner : list string :=
  ["srs-resolver - Lightweight SRS decoder for Postfix autoresponders" ++ nl;
   "Version: "; version; nl;
   "Copyright " ++ String "194" (String "169" " 2025 Damian Szlage / Umbrella Dev Systems / DriftZone.pl") ++ nl;
   nl ++ "License: GNU General Public License v3 or later"].

(** The [for] loop of [main], over the accepts that are observed. *)
Fixpoint accept_loop (cfg : Config) (outcomes : list (result Conn)) : M unit :=
  match outcomes with
  | [] => ret tt
  | Err err :: rest =>
      emit (SysAccept None) ;;
      logError "Connection error: %v" [err] ;;
      accept_loop cfg rest
  | Ok conn :: rest =>
      emit (SysAccept (Some conn)) ;;
      emit (SysGo_handle conn) ;;
      accept_loop cfg rest
  end.

Definition main : M unit :=
  (if flag_v w || flag_version w then emit (SysPrintln banner) else ret tt) ;;
  loaded <- attempt (LoadConfig "/etc/srs-resolver/srs-resolver.conf") ;;
  match loaded with
  | Err err => emit (SysPrintln ["[FATAL] Config error: "; err]) ;; exit 1
  | Ok cfg =>
      logging <- attempt (InitLogging cfg) ;;
      match logging with
      | Err err => emit (SysPrintln ["[FATAL] Logging error: "; err]) ;; exit 1
      | Ok _ =>
          logInfo "srs-resolver version %s starting..." [version] ;;
          (* Drop privileges if configured *)
          dropped <- attempt (dropPrivileges (DropUser cfg) (DropGroup cfg)) ;;
          match dropped with
          | Err err => logFatal "Dropping privileges failed: %v" [err]
          | Ok _ =>
              match net_Listen w (Listen cfg) with
              | Some err =>
                  emit (SysListen (Listen cfg) false) ;;
                  logFatal "Listen error: %v" [err]
              | None =>
                  emit (SysListen (Listen cfg) true) ;;
                  logInfo "Listening on %s" [Listen cfg] ;;
                  accept_loop cfg (accepted w)
              end
          end
      end
  end.

End Startup.

(** ** Observing the startup sequence *)

(** The events of a run of the program from the identity [p]. *)
Definition run (w : World) (p : Proc) : list sysevent :=
  fst (fst (main w p)).

Definition is_enter (e : sysevent) : bool :=
  match e with SysEnter_dropPrivileges _ _ => true | _ => false end.
Definition is_setid (e : sysevent) : bool :=
  match e with SysSetgid _ | SysSetuid _ => true | _ => false end.
Definition is_listen (e : sysevent) : bool :=
  match e with SysListen _ _ => true | _ => false end.
Definition is_bound (e : sysevent) : bool :=
  match e with SysListen _ true => true | _ => false end.
Definition is_accept (e : sysevent) : bool :=
  match e with SysAccept _ => true | _ => false end.

(** The events after the first one that satisfies [f]; none when there
    is no such event. *)
Fixpoint after_first (f : sysevent -> bool) (tr : list sysevent)
  : list sysevent :=
  match tr with
  | [] => []
  | e :: tr' => if f e then tr' else after_first f tr'
  end.

(** The events before the first one that satisfies [f]. *)
Fixpoint before_first (f : sysevent -> bool) (tr : list sysevent)
  : list sysevent :=
  match tr with
  | [] => []
  | e :: tr' => if f e then [] else e :: before_first f tr'
  end.

(** The order the specification states: [dropPrivileges] is entered
    exactly once in the run, after the socket is bound and before the
    first accept. *)
Definition drops_between_bind_and_accept (tr : list sysevent) : bool :=
  (List.length (filter is_enter tr) =? 1)%nat
  && existsb is_enter (before_first is_accept (after_first is_bound tr)).

(** A machine where everything succeeds: root starts the service, which
    is configured to become [nobody:nogroup] and then serves one client. *)
Definition root : Proc := {| euid := 0; egid := 0 |}.

Definition world0 : World :=
  {| flag_v := false; flag_version := false; flag_logtostdout := false;
     toml_DecodeFile := fun _ =>
       Ok {| Listen := "127.0.0.1:10022"; LogFile := "/var/log/srs-resolver.log";
             LogLevel_ := "info"; FallbackAddress := "";
             DropUser := "nobody"; DropGroup := "nogroup" |};
     os_OpenFile := fun _ => None;
     user_LookupGroup := fun _ => Ok {| Name := "nogroup"; Gid := "65534" |};
     user_Lookup := fun _ => Ok {| Username := "nobody"; Uid := "65534" |};
     strconv_Atoi := fun _ => Ok 65534%Z;
     syscall_Setgid := fun _ => None;
     syscall_Setuid := fun _ => None;
     user_LookupId := fun id =>
       Ok {| Username := if (id =? 0)%Z then "root" else "nobody"; Uid := "65534" |};
     user_LookupGroupId := fun id =>
       Ok {| Name := if (id =? 0)%Z then "root" else "nogroup"; Gid := "65534" |};
     net_Listen := fun _ => None;
     accepted := [Ok {| incoming := "get user@example.com" ++ nl |}] |}.

(** The order of the startup sequence as a monitor over its events: the
    process is [Starting] until [dropPrivileges] is entered, [Dropped]
    from then until [net.Listen] is called, and [Listening] afterwards.
    An event that is out of place stops the monitor. *)
Inductive phase : Type := Starting | Dropped | Listening.

Definition step (ph : phase) (e : sysevent) : option phase :=
  match ph, e with
  | Starting, SysEnter_dropPrivileges _ _ => Some Dropped
  | Starting, (SysSetgid _ | SysSetuid _ | SysListen _ _
               | SysAccept _ | SysGo_handle _) => None
  | Starting, _ => Some Starting
  | Dropped, SysListen _ _ => Some Listening
  | Dropped, (SysEnter_dropPrivileges _ _ | SysAccept _ | SysGo_handle _) => None
  | Dropped, _ => Some Dropped
  | Listening, (SysEnter_dropPrivileges _ _ | SysSetgid _ | SysSetuid _
                | SysListen _ _) => None
  | Listening, _ => Some Listening
  end.

Fixpoint monitor (ph : phase) (tr : list sysevent) : option phase :=
  match tr with
  | [] => Some ph
  | e :: tr' => match step ph e with
                | Some ph' => monitor ph' tr'
                | None => None
                end
  end.

(** ** Notions used by the statements *)

(** The branch of [handle] an address takes, as the specification names
    them (the source has no such type: the tags are the conditions of the
    [if]s at the top of the second half of [handle]). *)
Inductive Classification : Type :=
| CleanEmail | SRS0Encoded | SRS1Encoded | Unrecognized.

Definition classify (address : string) : Classification :=
  if strings.HasPrefix address "SRS0=" then SRS0Encoded
  else if strings.HasPrefix address "SRS1=" then SRS1Encoded
  else if isCleanEmail address then CleanEmail
  else Unrecognized.

(** [c] is one of the bytes of [s]. *)
Definition occurs (c : ascii) (s : string) : Prop :=
  In c (list_ascii_of_string s).

(** The characters [isCleanEmail] refuses, one by one (the last is the
    double quote, byte 34). *)
Definition forbidden : list ascii :=
  [" "; "<"; ">"; "("; ")"; ","; ";"; "="; "034"]%char.

(** A request with white space around the command and the address, and
    bytes after the first line. *)
Definition line1 : string := "  get   user@example.com  " ++ nl.
Definition conn1 : Conn := {| incoming := line1 ++ "more" |}.

(** [world0] with an unknown group: [dropPrivileges] fails. *)
Definition world1 : World :=
  {| flag_v := flag_v world0; flag_version := flag_version world0;
     flag_logtostdout := flag_logtostdout world0;
     toml_DecodeFile := toml_DecodeFile world0;
     os_OpenFile := os_OpenFile world0;
     user_LookupGroup := fun name => Err ("group: unknown group " ++ name);
     user_Lookup := user_Lookup world0;
     strconv_Atoi := strconv_Atoi world0;
     syscall_Setgid := syscall_Setgid world0;
     syscall_Setuid := syscall_Setuid world0;
     user_LookupId := user_LookupId world0;
     user_LookupGroupId := user_LookupGroupId world0;
     net_Listen := net_Listen world0;
     accepted := accepted world0 |}.

(** The rules of the specification for a plain address: none of the
    forbidden characters, exactly one ["@"], a non-empty part before it,
    and after it at least three bytes ([len] counts bytes), one of them
    a ["."]. *)
Definition clean_email_rules (s : string) : Prop :=
  (forall c, In c forbidden -> ~ occurs c s) /\
  count_occ ascii_dec (list_ascii_of_string s) "@"%char = 1 /\
  exists l d, s = l ++ "@" ++ d /\
              l <> "" /\ 3 <= String.length d /\ occurs "." d.

(** An SRS tag, either of the two. *)
Definition is_srs (c : Classification) : bool :=
  match c with SRS0Encoded | SRS1Encoded => true | _ => false end.

Definition is_log (e : event) : bool :=
  match e with EvLog _ _ _ => true | _ => false end.

(** [suffix_of t s]: [t] is what is left of [s] after some bytes. *)
Definition suffix_of (t s : string) : Prop := exists pre, s = pre ++ t.

(** The path of the configuration file, fixed in [main]. *)
Definition conf_path : string := "/etc/srs-resolver/srs-resolver.conf".

(** The events of a computation of [M]. *)
Definition trace_of {A} (x : list sysevent * Proc * result A) : list sysevent :=
  fst (fst x).

(** A small program logic for [M]: [moves ph m ph'] when, from every
    identity, the events of [m] take the monitor from [ph] to [ph'];
    [safe ph m] when they take it somewhere. *)
Definition moves {A} (ph : phase) (m : M A) (ph' : phase) : Prop :=
  forall p, monitor ph (trace_of (m p)) = Some ph'.

Definition safe {A} (ph : phase) (m : M A) : Prop :=
  forall p, exists ph', monitor ph (trace_of (m p)) = Some ph'.

(** ** Logging verbosity *)

(** The constants [LogError], [LogInfo], [LogDebug] as [iota] numbers them. *)
Definition level_rank (l : LogLevel) : nat :=
  match l with LogError => 0 | LogInfo => 1 | LogDebug => 2 end.

(** Whether a call of a logging helper prints under [currentLogLevel]:
    [logError] always does, [logInfo] when
    [currentLogLevel >= LogInfo], [logDebug] when
    [currentLogLevel >= LogDebug]. *)
Definition prints (currentLogLevel : LogLevel) (level : LogLevel) : bool :=
  match level with
  | LogError => true
  | LogInfo => (level_rank LogInfo <=? level_rank currentLogLevel)%nat
  | LogDebug => (level_rank LogDebug <=? level_rank currentLogLevel)%nat
  end.

(** The log calls of a handler that print under [currentLogLevel]. *)
Fixpoint log_output (currentLogLevel : LogLevel) (tr : list event)
  : list event :=
  match tr with
  | [] => []
  | EvLog level format args :: tr' =>
      if prints currentLogLevel level
      then EvLog level format args :: log_output currentLogLevel tr'
      else log_output currentLogLevel tr'
  | _ :: tr' => log_output currentLogLevel tr'
  end.

(** What the handler makes of an address: the address itself when it is
    clean, what it decodes to when it carries an SRS tag and decodes,
    nothing otherwise. *)
Definition resolution (address : string) : option string :=
  match classify address with
  | CleanEmail => Some address
  | Unrecognized => None
  | SRS0Encoded | SRS1Encoded =>
      match decodeSRS address with Ok decoded => Some decoded | Err _ => None end
  end.

(** ** Notions about [dropPrivileges] *)

Definition is_setuid (e : sysevent) : bool :=
  match e with SysSetuid _ => true | _ => false end.
Definition is_setgid (e : sysevent) : bool :=
  match e with SysSetgid _ => true | _ => false end.

(** At most one [Setgid], then at most one [Setuid]. *)
Definition group_then_user (calls : list sysevent) : Prop :=
  match calls with
  | [] | [SysSetgid _] | [SysSetuid _] | [SysSetgid _; SysSetuid _] => True
  | _ => False
  end.

Definition warning_root_user : sysevent :=
  SysLog LogError
    "Warning! Running as root user! Not dropping privileges! Be careful!" [].
Definition warning_root_group : sysevent :=
  SysLog LogError
    "Warning! Running as root group! Not dropping privileges! Be careful!" [].

(** [world0] without targets: the service is started by root and is not
    configured to become anyone else. *)
Definition world2 : World :=
  {| flag_v := true; flag_version := flag_version world0;
     flag_logtostdout := flag_logtostdout world0;
     toml_DecodeFile := fun _ => Ok (cfg0 "");
     os_OpenFile := os_OpenFile world0;
     user_LookupGroup := user_LookupGroup world0;
     user_Lookup := user_Lookup world0;
     strconv_Atoi := strconv_Atoi world0;
     syscall_Setgid := syscall_Setgid world0;
     syscall_Setuid := syscall_Setuid world0;
     user_LookupId := user_LookupId world0;
     user_LookupGroupId := user_LookupGroupId world0;
     net_Listen := net_Listen world0;
     accepted := [Err "accept: too many open files";
                  Ok {| incoming := "get user@example.com" ++ nl |};
                  Ok {| incoming := "put" ++ nl |}] |}.

(** ** Notions about [main] *)

(** The world [w] with the flags [-v] and [-version] not given. *)
Definition without_version_flags (w : World) : World :=
  {| flag_v := false; flag_version := false;
     flag_logtostdout := flag_logtostdout w;
     toml_DecodeFile := toml_DecodeFile w;
     os_OpenFile := os_OpenFile w;
     user_LookupGroup := user_LookupGroup w;
     user_Lookup := user_Lookup w;
     strconv_Atoi := strconv_Atoi w;
     syscall_Setgid := syscall_Setgid w;
     syscall_Setuid := syscall_Setuid w;
     user_LookupId := user_LookupId w;
     user_LookupGroupId := user_LookupGroupId w;
     net_Listen := net_Listen w;
     accepted := accepted w |}.

(** The calls of [os.OpenFile], which [InitLogging] makes for the log
    file.  What the libraries read themselves (the configuration file
    in [toml.DecodeFile], the user database in [os/user]) is no such
    call. *)
Definition is_openfile (e : sysevent) : bool :=
  match e with SysOpenFile _ => true | _ => false end.

(** The connections handed to a handler ([go handle(conn, cfg)]), in
    order. *)
Fixpoint handlers (tr : list sysevent) : list Conn :=
  match tr with
  | [] => []
  | SysGo_handle conn :: tr' => conn :: handlers tr'
  | _ :: tr' => handlers tr'
  end.

(** The connections that [ln.Accept()] returned without error, in order. *)
Fixpoint accepted_conns (outcomes : list (result Conn)) : list Conn :=
  match outcomes with
  | [] => []
  | Ok conn :: rest => conn :: accepted_conns rest
  | Err _ :: rest => accepted_conns rest
  end.

(** The errors that [ln.Accept()] returned, in order. *)
Fixpoint accept_errors (outcomes : list (result Conn)) : list string :=
  match outcomes with
  | [] => []
  | Ok _ :: rest => accept_errors rest
  | Err err :: rest => err :: accept_errors rest
  end.

(** The arguments of the [logError("Connection error: %v", err)] calls. *)
Fixpoint connection_errors (tr : list sysevent) : list string :=
  match tr with
  | [] => []
  | SysLog LogError format [err] :: tr' =>
      if format =? "Connection error: %v"
      then err :: connection_errors tr'
      else connection_errors tr'
  | _ :: tr' => connection_errors tr'
  end.

(** ** The earlier program, [cmd/srs-resolver/main.go] *)

(** The repository holds an earlier [main.go] as well: the same request
    pipeline with Polish messages, without the error value in the log of
    a failed decoding, and without [dropPrivileges].  Its [isCleanEmail]
    and [notAllowedChars] are those above, statement for statement; its
    [Config] has no [DropUser] and [DropGroup], which the handler does
    not read. *)
Module cmd.

Definition decodeSRS (srs : string) : result string :=
  let parts := strings.SplitN srs "=" 5 in
  if negb (List.length parts =? 5)%nat then
    Err "nieprawidłowy format SRS - nieprawidłowa liczba części"
  else
    let domain := nth 3 parts EmptyString in
    let local := nth 4 parts EmptyString in
    if strings.Contains local "@" then
      let user := nth 0 (strings.Split local "@") EmptyString in
      Ok (user ++ "@" ++ domain)
    else
      Ok (local ++ "@" ++ domain).

Definition handle_body (conn : Conn) (cfg : Config) : list event :=
  match ReadString conn LF with
  | Err _ => [EvWrite ("500 read error" ++ nl)]
  | Ok line =>
      let line := strings.TrimSpace line in
      if negb (strings.HasPrefix line "get ") then
        [EvWrite ("500 invalid request" ++ nl)]
      else
        let address := strings.TrimSpace (slice_from 4 line) in
        if negb (strings.HasPrefix address "SRS0=")
           && negb (strings.HasPrefix address "SRS1=") then
          if isCleanEmail address then
            [EvLog LogDebug "Poprawny adres: %s, nie wymaga rozwiązywania" [address];
             EvWrite ("200 " ++ address ++ nl)]
          else if negb (FallbackAddress cfg =? "") then
            [EvLog LogError "Błędny adres: %s, zwracam fallback_address: %s"
                   [address; FallbackAddress cfg];
             EvWrite ("200 " ++ FallbackAddress cfg ++ nl)]
          else
            [EvLog LogError
                   "Błędny adres: %s, brak ustawionego fallback_address, 500 invalid request"
                   [address];
             EvWrite ("500 invalid request" ++ nl)]
        else
          match decodeSRS address with
          | Err err =>
              if negb (FallbackAddress cfg =? "") then
                [EvLog LogError "Błędny SRS: %s, zwracam fallback_address: %s"
                       [address; FallbackAddress cfg];
                 EvWrite ("200 " ++ FallbackAddress cfg ++ nl)]
              else
                [EvLog LogError
                       "Błędny SRS: %s, brak ustawionego fallback_address, 500 invalid request"
                       [address];
                 EvWrite ("500 invalid request" ++ nl)]
          | Ok decoded =>
              [EvLog LogInfo ("Rozwiązano: %s " ++ arrow ++ " %s") [address; decoded];
               EvWrite ("200 " ++ decoded ++ nl)]
          end
  end.

Definition handle (conn : Conn) (cfg : Config) : list event :=
  (handle_body conn cfg ++ [EvClose])%list.

End cmd.

(** The level of each log call of a handler, in order. *)
Fixpoint log_levels (tr : list event) : list LogLevel :=
  match tr with
  | [] => []
  | EvLog level _ _ :: tr' => level :: log_levels tr'
  | _ :: tr' => log_levels tr'
  end.

(** ** Notions about white space *)

(** Every byte of [pad] is ASCII white space other than the newline. *)
Fixpoint blank (pad : string) : bool :=
  match pad with
  | EmptyString => true
  | String c pad' => strings.asciiSpace c && negb (Ascii.eqb c LF) && blank pad'
  end.

(** Every byte of [pad] is ASCII white space. *)
Fixpoint spaces (pad : string) : bool :=
  match pad with
  | EmptyString => true
  | String c pad' => strings.asciiSpace c && spaces pad'
  end.

(** Every byte of [s] is below 0x80. *)
Fixpoint isASCII (s : string) : bool :=
  match s with
  | EmptyString => true
  | String c s' => (nat_of_ascii c <? 128)%nat && isASCII s'
  end.

(** ** The log level of [InitLogging] *)

(** ['A' <= c && c <= 'Z']. *)
Definition is_upper (c : ascii) : bool :=
  ((65 <=? nat_of_ascii c) && (nat_of_ascii c <=? 90))%nat.

(** [c += 'a' - 'A'] for an upper-case letter. *)
Definition lower_byte (c : ascii) : ascii :=
  if is_upper c then ascii_of_nat (nat_of_ascii c + 32) else c.

Fixpoint lower_bytes (s : string) : string :=
  match s with
  | EmptyString => EmptyString
  | String c s' => String (lower_byte c) (lower_bytes s')
  end.

Section LogLevelSelection.

(** [strings.Map(unicode.ToLower, s)], which [strings.ToLower] falls back
    to when [s] has a byte from 0x80 on: it needs the case tables of
    Unicode, which are not part of this development. *)
Variable unicode_ToLower : string -> string.

(** [strings.ToLower(s)]: a string of ASCII bytes is lowered byte by
    byte. *)
Definition ToLower (s : string) : string :=
  if isASCII s then lower_bytes s else unicode_ToLower s.

(** The [switch] of [InitLogging]: the value it gives [currentLogLevel]. *)
Definition InitLogging_level (cfg : Config) : LogLevel :=
  let level := ToLower (LogLevel_ cfg) in
  if level =? "debug" then LogDebug
  else if level =? "info" then LogInfo
  else if level =? "error" then LogError
  else LogError.

End LogLevelSelection.

(** [a] is [b] or the capital of [b]. *)
Definition same_letter (a b : ascii) : bool :=
  Ascii.eqb a b || (is_upper a && (nat_of_ascii a + 32 =? nat_of_ascii b)%nat).

(** [s] is [t] up to the case of its ASCII letters ([t] in lower case). *)
Fixpoint same_letters (s t : string) : bool :=
  match s, t with
  | EmptyString, EmptyString => true
  | String a s', String b t' => same_letter a b && same_letters s' t'
  | _, _ => false
  end.

Fixpoint has_upper (s : string) : bool :=
  match s with
  | EmptyString => false
  | String c s' => is_upper c || has_upper s'
  end.

(** ** White space and characters, as Unicode and UTF-8 define them *)

(** The code points with the Unicode property White_Space, the ones
    [unicode.IsSpace] accepts: U+0009..U+000D, U+0020, U+0085, U+00A0,
    U+1680, U+2000..U+200A, U+2028, U+2029, U+202F, U+205F, U+3000. *)
Definition White_Space : list N :=
  [9; 10; 11; 12; 13; 32; 133; 160; 5760;
   8192; 8193; 8194; 8195; 8196; 8197; 8198; 8199; 8200; 8201; 8202;
   8232; 8233; 8239; 8287; 12288]%N.

(** The UTF-8 encoding of a code point below U+10000: one byte below
    U+0080, two bytes (110xxxxx 10xxxxxx) below U+0800, three bytes
    (1110xxxx 10xxxxxx 10xxxxxx) otherwise. *)
Definition utf8 (cp : N) : string :=
  if (cp <? 128)%N then String (ascii_of_N cp) ""
  else if (cp <? 2048)%N then
    String (ascii_of_N (192 + cp / 64))
      (String (ascii_of_N (128 + cp mod 64)) "")
  else
    String (ascii_of_N (224 + cp / 4096))
      (String (ascii_of_N (128 + (cp / 64) mod 64))
         (String (ascii_of_N (128 + cp mod 64)) "")).

(** [white s]: [s] is white space and nothing else, the encodings of
    white-space code points one after the other. *)
Inductive white : string -> Prop :=
| white_nil : white ""
| white_cons (cp : N) (s : string) :
    In cp White_Space -> white s -> white (utf8 cp ++ s).

(** [s] begins, or ends, with a white-space character. *)
Definition starts_white (s : string) : Prop :=
  exists cp rest, In cp White_Space /\ s = utf8 cp ++ rest.
Definition ends_white (s : string) : Prop :=
  exists cp pre, In cp White_Space /\ s = pre ++ utf8 cp.

(** [trimmed_of s t]: [t] is [s] without its surrounding white space.
    [s] is white space, then [t], then white space, and [t] neither
    begins nor ends with a white-space character. *)
Definition trimmed_of (s t : string) : Prop :=
  exists pre post,
    s = pre ++ t ++ post /\ white pre /\ white post
    /\ ~ starts_white t /\ ~ ends_white t.

(** A continuation byte of UTF-8, 10xxxxxx. *)
Definition continuation (c : ascii) : bool :=
  ((128 <=? nat_of_ascii c) && (nat_of_ascii c <? 192))%nat.

(** The number of characters (code points) of a UTF-8 text: every
    character has exactly one byte that is not a continuation byte. *)
Fixpoint characters (s : string) : nat :=
  match s with
  | EmptyString => 0
  | String c s' => (if continuation c then 0 else 1) + characters s'
  end.

(** The rules for a plain address with the length of the domain counted
    in characters, as the words of the specification have it, where
    [clean_email_rules] counts bytes. *)
Definition clean_email_rules_characters (s : string) : Prop :=
  (forall c, In c forbidden -> ~ occurs c s) /\
  count_occ ascii_dec (list_ascii_of_string s) "@"%char = 1 /\
  exists l d, s = l ++ "@" ++ d /\
              l <> "" /\ 3 <= characters d /\ occurs "." d.

(** An address whose domain is the two characters U+00E9 (e with acute
    accent, the bytes C3 A9) and a dot. *)
Definition u_at_e_dot : string := "u@" ++ utf8 233 ++ ".".

(** [world0] with the port taken: [net.Listen] fails. *)
Definition world3 : World :=
  {| flag_v := flag_v world0; flag_version := flag_version world0;
     flag_logtostdout := flag_logtostdout world0;
     toml_DecodeFile := toml_DecodeFile world0;
     os_OpenFile := os_OpenFile world0;
     user_LookupGroup := user_LookupGroup world0;
     user_Lookup := user_Lookup world0;
     strconv_Atoi := strconv_Atoi world0;
     syscall_Setgid := syscall_Setgid world0;
     syscall_Setuid := syscall_Setuid world0;
     user_LookupId := user_LookupId world0;
     user_LookupGroupId := user_LookupGroupId world0;
     net_Listen := fun _ =>
       Some "listen tcp 127.0.0.1:10022: bind: address already in use";
     accepted := accepted world0 |}.

(** * Properties *)

(** ** Byte strings *)

Lemma append_assoc (a b c : string) : (a ++ b) ++ c = a ++ (b ++ c).
Proof. induction a as [|x a IH]; simpl; [reflexivity | now rewrite IH]. Qed.

Lemma append_nil_r (a : string) : a ++ "" = a.
Proof. induction a as [|x a IH]; simpl; [reflexivity | now rewrite IH]. Qed.

Lemma length_append (a b : string) :
  String.length (a ++ b) = String.length a + String.length b.
Proof. induction a as [|x a IH]; simpl; [reflexivity | now rewrite IH]. Qed.

Lemma Contains_occurs (s : string) (c : ascii) :
  strings.Contains s c = true <-> occurs c s.
Proof.
  unfold occurs. induction s as [|a s IH]; simpl.
  - split; [discriminate | tauto].
  - rewrite orb_true_iff, Ascii.eqb_eq, IH. tauto.
Qed.

Lemma Contains_false_occurs (s : string) (c : ascii) :
  strings.Contains s c = false <-> ~ occurs c s.
Proof.
  rewrite <- Contains_occurs.
  destruct (strings.Contains s c); split; intros; congruence.
Qed.

Lemma Contains_append (a b : string) (c : ascii) :
  strings.Contains (a ++ b) c = strings.Contains a c || strings.Contains b c.
Proof.
  induction a as [|x a IH]; simpl; [reflexivity|].
  now rewrite IH, orb_assoc.
Qed.

Lemma Count_append (a b : string) (c : ascii) :
  strings.Count (a ++ b) c = strings.Count a c + strings.Count b c.
Proof.
  induction a as [|x a IH]; simpl; [reflexivity|]. rewrite IH. lia.
Qed.

Lemma Count_zero (s : string) (c : ascii) :
  strings.Count s c = 0 <-> strings.Contains s c = false.
Proof.
  induction s as [|a s IH]; simpl; [tauto|].
  destruct (Ascii.eqb a c); simpl; [split; [lia | discriminate] | exact IH].
Qed.

Lemma Count_le_length (s : string) (c : ascii) :
  strings.Count s c <= String.length s.
Proof.
  induction s as [|a s IH]; simpl; [lia|].
  destruct (Ascii.eqb a c); lia.
Qed.

(** *** Splitting at a separator byte *)

Section Split.

Variable sep : ascii.

(** [cut] finds the first separator: what it returns, and when. *)
Lemma cut_Some (s : string) (before after : string) :
  strings.cut s sep = Some (before, after) <->
  s = before ++ String sep after /\ strings.Contains before sep = false.
Proof.
  revert before. induction s as [|a s IH]; intros before; simpl.
  - split; [discriminate|]. intros [H _]. destruct before; discriminate.
  - destruct (Ascii.eqb_spec a sep) as [->|Hne].
    + split.
      * intros [= <- <-]. split; reflexivity.
      * intros [H Hc]. destruct before as [|x before]; simpl in *.
        -- now injection H as ->.
        -- injection H as <- _. now rewrite Ascii.eqb_refl in Hc.
    + destruct (strings.cut s sep) as [[b a']|] eqn:E.
      * split.
        -- intros [= <- <-]. destruct (proj1 (IH b) eq_refl) as [-> Hc].
           split; [reflexivity|]. simpl.
           destruct (Ascii.eqb_spec a sep); [contradiction | exact Hc].
        -- intros [H Hc]. destruct before as [|x before]; simpl in *.
           ++ injection H as -> _. contradiction.
           ++ injection H as <- ->. apply orb_false_iff in Hc as [_ Hc].
              assert (E' : Some (b, a') = Some (before, after))
                by (apply IH; split; [reflexivity | exact Hc]).
              now injection E' as -> ->.
      * split; [discriminate|]. intros [H Hc].
        destruct before as [|x before]; simpl in *.
        -- injection H as -> _. contradiction.
        -- injection H as <- ->. apply orb_false_iff in Hc as [_ Hc].
           assert (E' : None = Some (before, after))
             by (apply IH; split; [reflexivity | exact Hc]).
           discriminate.
Qed.

Lemma cut_app (before after : string) :
  strings.Contains before sep = false ->
  strings.cut (before ++ String sep after) sep = Some (before, after).
Proof. intros H. apply cut_Some. split; [reflexivity | exact H]. Qed.

Lemma cut_None (s : string) :
  strings.cut s sep = None <-> strings.Contains s sep = false.
Proof.
  induction s as [|a s IH]; simpl; [tauto|].
  destruct (Ascii.eqb a sep); simpl; [split; discriminate|].
  destruct (strings.cut s sep) as [[b a']|].
  - split; [discriminate|]. intros H. apply IH in H. discriminate.
  - split; [intros _; now apply IH | reflexivity].
Qed.

Lemma cut_Count (s : string) (before after : string) :
  strings.cut s sep = Some (before, after) ->
  strings.Count s sep = S (strings.Count after sep).
Proof.
  intros H. apply cut_Some in H as [-> Hc].
  rewrite Count_append. simpl. rewrite Ascii.eqb_refl.
  apply Count_zero in Hc. lia.
Qed.

(** [genSplit] returns one more element than the separators it consumed. *)
Lemma genSplit_length (s : string) (cuts : nat) :
  List.length (strings.genSplit s sep cuts)
  = S (Nat.min cuts (strings.Count s sep)).
Proof.
  revert s. induction cuts as [|k IH]; intros s; simpl; [reflexivity|].
  destruct (strings.cut s sep) as [[b a]|] eqn:E.
  - simpl. rewrite IH, (cut_Count _ _ _ E). reflexivity.
  - apply cut_None, Count_zero in E. rewrite E. reflexivity.
Qed.

(** Cuts beyond the number of separators change nothing. *)
Lemma genSplit_saturate (s : string) (cuts : nat) :
  strings.Count s sep <= cuts ->
  strings.genSplit s sep cuts = strings.genSplit s sep (strings.Count s sep).
Proof.
  revert s. induction cuts as [|k IH]; intros s H.
  - now replace (strings.Count s sep) with 0 by lia.
  - simpl. destruct (strings.cut s sep) as [[b a]|] eqn:E.
    + rewrite (cut_Count _ _ _ E) in *. simpl. rewrite E.
      f_equal. apply IH. lia.
    + apply cut_None, Count_zero in E. now rewrite E.
Qed.

(** The clamp of [n] to [len(s) + 1] in [SplitN] is an optimisation of
    the allocation only. *)
Lemma SplitN_genSplit (s : string) (cuts : nat) :
  strings.SplitN s sep (S cuts) = strings.genSplit s sep cuts.
Proof.
  unfold strings.SplitN. simpl Nat.min.
  destruct (Nat.le_gt_cases cuts (String.length s)) as [H|H].
  - now rewrite Nat.min_l.
  - rewrite Nat.min_r by lia.
    pose proof (Count_le_length s sep).
    rewrite (genSplit_saturate s cuts) by lia.
    now rewrite (genSplit_saturate s (String.length s)) by lia.
Qed.

Lemma SplitN_length (s : string) (cuts : nat) :
  List.length (strings.SplitN s sep (S cuts))
  = S (Nat.min cuts (strings.Count s sep)).
Proof. rewrite SplitN_genSplit. apply genSplit_length. Qed.

(** The first element of [Split] is what precedes the first separator. *)
Lemma Split_head (before after : string) :
  strings.Contains before sep = false ->
  nth 0 (strings.Split (before ++ String sep after) sep) "" = before.
Proof.
  intros H. unfold strings.Split.
  rewrite Count_append. simpl. rewrite Ascii.eqb_refl.
  replace (strings.Count before sep + (1 + strings.Count after sep))
    with (S (strings.Count before sep + strings.Count after sep)) by lia.
  simpl. now rewrite cut_app.
Qed.

End Split.

Lemma Count_count_occ (s : string) (c : ascii) :
  strings.Count s c = count_occ ascii_dec (list_ascii_of_string s) c.
Proof.
  induction s as [|a s IH]; simpl; [reflexivity|].
  destruct (ascii_dec a c) as [e|n]; destruct (Ascii.eqb_spec a c);
    try contradiction; rewrite IH; reflexivity.
Qed.

(** A string that contains [c] splits at the first [c]. *)
Lemma first_occurrence (c : ascii) (s : string) :
  occurs c s ->
  exists before after, s = before ++ String c after /\ ~ occurs c before.
Proof.
  intros H. apply Contains_occurs in H.
  destruct (strings.cut s c) as [[b a]|] eqn:E.
  - apply cut_Some in E as [-> Hb]. exists b, a. split; [reflexivity|].
    now apply Contains_false_occurs.
  - apply cut_None in E. congruence.
Qed.

(** ** The decoder *)

Lemma tag_no_eq (tag : string) :
  tag = "SRS0" \/ tag = "SRS1" -> strings.Contains tag "=" = false.
Proof. intros [-> | ->]; reflexivity. Qed.

(** The five fields of a string of the shape tag=H=T=D=L. *)
Lemma SplitN_fields (tag H T D L : string) :
  strings.Contains tag "=" = false ->
  ~ occurs "=" H -> ~ occurs "=" T -> ~ occurs "=" D ->
  strings.SplitN (tag ++ "=" ++ H ++ "=" ++ T ++ "=" ++ D ++ "=" ++ L) "=" 5
  = [tag; H; T; D; L].
Proof.
  intros Htag HH HT HD.
  apply Contains_false_occurs in HH, HT, HD.
  rewrite SplitN_genSplit. simpl.
  now rewrite !cut_app by assumption.
Qed.

(** C2. Every string SRS0=H=T=D=L or SRS1=H=T=D=L, with no ["="] in H,
    T and D and no ["@"] in L (further ["="] in L are allowed), decodes
    to exactly L@D. *)
Theorem decodeSRS_plain_local (tag H T D L : string) :
  tag = "SRS0" \/ tag = "SRS1" ->
  ~ occurs "=" H -> ~ occurs "=" T -> ~ occurs "=" D ->
  ~ occurs "@" L ->
  decodeSRS (tag ++ "=" ++ H ++ "=" ++ T ++ "=" ++ D ++ "=" ++ L)
  = Ok (L ++ "@" ++ D).
Proof.
  intros Htag HH HT HD HL. unfold decodeSRS.
  rewrite SplitN_fields by auto using tag_no_eq. simpl.
  apply Contains_false_occurs in HL. now rewrite HL.
Qed.

Lemma decodeSRS_plain_local_witness :
  decodeSRS ("SRS0" ++ "=" ++ "abc123" ++ "=" ++ "12345" ++ "="
             ++ "example.com" ++ "=" ++ "a=b")
  = Ok ("a=b" ++ "@" ++ "example.com").
Proof.
  apply (decodeSRS_plain_local "SRS0" "abc123" "12345" "example.com" "a=b");
    [left; reflexivity | | | | ];
    intros H; apply Contains_occurs in H; discriminate H.
Defined.

(** C3. When the fifth field L contains an ["@"], write L = L1@L2 with
    L1 free of ["@"]: L1 is what precedes the first ["@"] of L, and it is
    the only such prefix.  The result is L1@D: the fourth field D
    replaces the embedded domain L2. *)
Theorem decodeSRS_embedded_domain (tag H T D L : string) :
  tag = "SRS0" \/ tag = "SRS1" ->
  ~ occurs "=" H -> ~ occurs "=" T -> ~ occurs "=" D ->
  occurs "@" L ->
  exists L1 L2,
    L = L1 ++ "@" ++ L2 /\ ~ occurs "@" L1
    /\ (forall L1' L2', L = L1' ++ "@" ++ L2' -> ~ occurs "@" L1' -> L1' = L1)
    /\ decodeSRS (tag ++ "=" ++ H ++ "=" ++ T ++ "=" ++ D ++ "=" ++ L)
       = Ok (L1 ++ "@" ++ D).
Proof.
  intros Htag HH HT HD HL.
  destruct (first_occurrence "@" L HL) as (L1 & L2 & -> & HL1).
  exists L1, L2. split; [reflexivity|]. split; [exact HL1|].
  apply Contains_false_occurs in HL1. split.
  - intros L1' L2' E HL1'. apply Contains_false_occurs in HL1'.
    pose proof (cut_app "@" L1 L2 HL1) as C.
    change ("@" ++ L2') with (String "@" L2') in E.
    rewrite E, (cut_app "@" L1' L2' HL1') in C. now injection C.
  - unfold decodeSRS.
    rewrite SplitN_fields by auto using tag_no_eq.
    cbn [List.length Nat.eqb negb nth].
    rewrite Contains_append. simpl strings.Contains at 2.
    rewrite orb_true_r. now rewrite Split_head.
Qed.

Lemma decodeSRS_embedded_domain_witness :
  exists L1 L2,
    "user@forwarder.com@x" = L1 ++ "@" ++ L2 /\ ~ occurs "@" L1
    /\ (forall L1' L2', "user@forwarder.com@x" = L1' ++ "@" ++ L2' ->
                        ~ occurs "@" L1' -> L1' = L1)
    /\ decodeSRS ("SRS1" ++ "=" ++ "def456" ++ "=" ++ "67890" ++ "="
                  ++ "example.com" ++ "=" ++ "user@forwarder.com@x")
       = Ok (L1 ++ "@" ++ "example.com").
Proof.
  apply (decodeSRS_embedded_domain "SRS1" "def456" "67890" "example.com"
           "user@forwarder.com@x");
    [right; reflexivity | | | | apply Contains_occurs; reflexivity];
    intros H; apply Contains_occurs in H; discriminate H.
Defined.

(** C4. [decodeSRS] fails exactly when [SplitN(srs, "=", 5)] has fewer
    than five elements, which is exactly when the string has fewer than
    four ["="]; with four or more it returns an address.  This holds for
    every string, SRS-prefixed or not. *)
Theorem decodeSRS_fails_iff (srs : string) :
  let n_eq := count_occ ascii_dec (list_ascii_of_string srs) "="%char in
  (is_err (decodeSRS srs) = true
   <-> List.length (strings.SplitN srs "=" 5) < 5) /\
  (is_err (decodeSRS srs) = true <-> n_eq < 4) /\
  (4 <= n_eq <-> exists address, decodeSRS srs = Ok address).
Proof.
  cbv zeta. rewrite <- Count_count_occ.
  pose proof (SplitN_length "=" srs 4) as Hlen.
  assert (E : is_err (decodeSRS srs) = true <-> strings.Count srs "=" < 4).
  { unfold decodeSRS. rewrite Hlen.
    destruct (Nat.le_gt_cases 4 (strings.Count srs "=")) as [H|H].
    - rewrite Nat.min_l by lia. simpl.
      destruct (strings.Contains _ _); simpl; split; [discriminate | lia | discriminate | lia].
    - rewrite Nat.min_r by lia.
      replace (S (strings.Count srs "=") =? 5)%nat with false
        by (symmetry; apply Nat.eqb_neq; lia).
      simpl. tauto. }
  split; [|split].
  - rewrite E, Hlen. lia.
  - exact E.
  - split.
    + intros H. destruct (decodeSRS srs) as [a|m] eqn:D; [now exists a|].
      simpl in E. assert (strings.Count srs "=" < 4) by now apply E. lia.
    + intros [a Ha]. rewrite Ha in E. simpl in E.
      destruct (Nat.le_gt_cases 4 (strings.Count srs "=")) as [H|H]; [exact H|].
      apply E in H. discriminate.
Qed.

(** ** The clean-email check *)

Lemma ContainsAny_false (s chars : string) :
  strings.ContainsAny s chars = false <->
  forall c, occurs c chars -> ~ occurs c s.
Proof.
  induction s as [|a s IH]; simpl.
  - split; [intros _ c _ [] | reflexivity].
  - rewrite orb_false_iff, IH, Contains_false_occurs. split.
    + intros [Ha Hs] c Hc [<- | Hin]; [exact (Ha Hc) | exact (Hs c Hc Hin)].
    + intros H. split.
      * intros Ha. apply (H a Ha). now left.
      * intros c Hc Hin. apply (H c Hc). now right.
Qed.

(** The indices 0 and 1 that [isCleanEmail] reads are in range: with one
    ["@"], [strings.Split] returns two parts, the text before and after it. *)
Lemma Split_one (s : string) (sep : ascii) :
  strings.Count s sep = 1 ->
  exists l d, strings.Split s sep = [l; d] /\ s = l ++ String sep d
              /\ ~ occurs sep l /\ ~ occurs sep d.
Proof.
  intros H. unfold strings.Split. rewrite H. simpl.
  destruct (strings.cut s sep) as [[l d]|] eqn:E.
  - exists l, d. pose proof (cut_Count _ _ _ _ E) as Hc.
    apply cut_Some in E as [-> Hl]. repeat split.
    + now apply Contains_false_occurs.
    + apply Contains_false_occurs, Count_zero. lia.
  - apply cut_None, Count_zero in E. lia.
Qed.

Lemma one_sep_unique (sep : ascii) (l d l' d' : string) :
  strings.Count (l ++ String sep d) sep = 1 ->
  l ++ String sep d = l' ++ String sep d' ->
  l = l' /\ d = d'.
Proof.
  intros Hone E.
  assert (Hl : strings.Contains l sep = false).
  { apply Count_zero. rewrite Count_append in Hone. simpl in Hone.
    rewrite Ascii.eqb_refl in Hone. lia. }
  assert (Hl' : strings.Contains l' sep = false).
  { apply Count_zero. rewrite E, Count_append in Hone. simpl in Hone.
    rewrite Ascii.eqb_refl in Hone. lia. }
  pose proof (cut_app sep l d Hl) as C. rewrite E, (cut_app sep l' d' Hl') in C.
  now injection C as -> ->.
Qed.

Lemma isCleanEmail_rules (s : string) :
  isCleanEmail s = true <-> clean_email_rules s.
Proof.
  unfold isCleanEmail, clean_email_rules. rewrite <- Count_count_occ.
  destruct (strings.ContainsAny s notAllowedChars) eqn:Hany.
  { split; [discriminate|]. intros [Hf _].
    assert (strings.ContainsAny s notAllowedChars = false)
      by (apply ContainsAny_false; exact Hf).
    congruence. }
  pose proof (proj1 (ContainsAny_false _ _) Hany) as Hnone. clear Hany.
  destruct (Nat.eqb_spec (strings.Count s "@") 1) as [Hone|Hone]; simpl.
  2:{ split; [discriminate|]. intros (_ & H & _). contradiction. }
  destruct (Split_one s "@" Hone) as (l & d & -> & Hs & Hl & Hd).
  cbn [nth]. subst s.
  assert (U : forall l' d', l ++ String "@" d = l' ++ "@" ++ d' -> l' = l /\ d' = d).
  { intros l' d' E. symmetry in E.
    destruct (one_sep_unique "@" l' d' l d) as [-> ->];
      [ | exact E | split; reflexivity].
    change ("@" ++ d') with (String "@" d') in E. now rewrite E. }
  destruct (Nat.eqb_spec (String.length l) 0) as [Hl0|Hl0]; simpl.
  { split; [discriminate|]. intros (_ & _ & l' & d' & E & Hne & _).
    apply U in E as [-> ->]. destruct l; [congruence | discriminate]. }
  destruct (Nat.ltb_spec (String.length d) 3) as [Hd3|Hd3]; simpl.
  { split; [discriminate|]. intros (_ & _ & l' & d' & E & _ & Hlen & _).
    apply U in E as [-> ->]. lia. }
  destruct (strings.Contains d ".") eqn:Hdot; simpl.
  - split; [intros _ | reflexivity].
    split; [exact Hnone | split; [exact Hone|]].
    exists l, d. repeat split; try assumption.
    + intros ->. apply Hl0. reflexivity.
    + now apply Contains_occurs.
  - split; [discriminate|]. intros (_ & _ & l' & d' & E & _ & _ & Hocc).
    apply U in E as [-> ->]. apply Contains_occurs in Hocc. congruence.
Qed.

(** C6, as the code has it.  For a string without the prefix ["SRS0="]
    or ["SRS1="], the classification is [CleanEmail] exactly when the
    string has none of the forbidden characters, exactly one ["@"],
    something before it, and after it at least three BYTES with a ["."]
    among them; in every other case it is [Unrecognized].
    [isCleanEmail] computes the same rules.  (The length of the domain
    is Go's [len], a number of bytes, not of characters.) *)
Theorem classify_clean_iff (s : string) :
  strings.HasPrefix s "SRS0=" = false ->
  strings.HasPrefix s "SRS1=" = false ->
  (isCleanEmail s = true <-> clean_email_rules s) /\
  (classify s = CleanEmail <-> clean_email_rules s) /\
  (classify s = Unrecognized <-> ~ clean_email_rules s).
Proof.
  intros H0 H1. unfold classify. rewrite H0, H1.
  pose proof (isCleanEmail_rules s) as R.
  split; [exact R|].
  destruct (isCleanEmail s); split; split; intros H;
    try discriminate; try reflexivity.
  - now apply R.
  - exfalso. apply H. now apply R.
  - apply R in H. discriminate.
  - intros C. apply R in C. discriminate.
Qed.

Lemma classify_clean_iff_witness :
  (isCleanEmail "user@example.com" = true
   <-> clean_email_rules "user@example.com") /\
  (classify "user@example.com" = CleanEmail
   <-> clean_email_rules "user@example.com") /\
  (classify "user@example.com" = Unrecognized
   <-> ~ clean_email_rules "user@example.com").
Proof. apply (classify_clean_iff "user@example.com"); reflexivity. Defined.

(** Counting characters instead of bytes is the stronger demand: a
    character is at least one byte. *)
Lemma characters_le_length (s : string) : characters s <= String.length s.
Proof.
  induction s as [|c s IH]; simpl; [lia|]. destruct (continuation c); lia.
Qed.

Lemma clean_email_rules_of_characters (s : string) :
  clean_email_rules_characters s -> clean_email_rules s.
Proof.
  intros (Hf & Hone & l & d & E & Hl & Hlen & Hdot).
  split; [exact Hf | split; [exact Hone|]]. exists l, d.
  pose proof (characters_le_length d). repeat split; auto. lia.
Qed.

(** C6, the rule as the specification words it.  With the length of the
    domain counted in characters the equivalence fails: the address
    [u@] followed by U+00E9 and a dot has no SRS prefix and a domain of
    two characters, but of three bytes, and it is classified
    [CleanEmail]. *)
Lemma classify_clean_counts_bytes :
  strings.HasPrefix u_at_e_dot "SRS0=" = false
  /\ strings.HasPrefix u_at_e_dot "SRS1=" = false
  /\ isCleanEmail u_at_e_dot = true
  /\ classify u_at_e_dot = CleanEmail
  /\ u_at_e_dot = "u" ++ "@" ++ utf8 233 ++ "."
  /\ String.length (utf8 233 ++ ".") = 3
  /\ characters (utf8 233 ++ ".") = 2
  /\ ~ clean_email_rules_characters u_at_e_dot.
Proof.
  repeat split.
  intros (_ & Hone & l & d & E & _ & Hlen & _).
  assert (U : l = "u" /\ d = utf8 233 ++ ".").
  { destruct (one_sep_unique "@" "u" (utf8 233 ++ ".") l d) as [<- <-];
      [reflexivity | exact E | split; reflexivity]. }
  destruct U as [_ ->]. vm_compute in Hlen. lia.
Qed.

(** ** The handler *)

(** Runs [handle] up to the test of the command token. *)
Ltac run_handle Hread Hget :=
  unfold handle, handle_body; rewrite Hread; cbv zeta; rewrite Hget;
  cbn [negb].

Lemma classify_srs (address : string) :
  is_srs (classify address) = true <->
  negb (strings.HasPrefix address "SRS0=")
  && negb (strings.HasPrefix address "SRS1=") = false.
Proof.
  unfold classify.
  destruct (strings.HasPrefix address "SRS0=");
    destruct (strings.HasPrefix address "SRS1=");
    destruct (isCleanEmail address); simpl; split; congruence.
Qed.

Lemma classify_unrecognized (address : string) :
  classify address = Unrecognized <->
  negb (strings.HasPrefix address "SRS0=")
  && negb (strings.HasPrefix address "SRS1=") = true
  /\ isCleanEmail address = false.
Proof.
  unfold classify.
  destruct (strings.HasPrefix address "SRS0=");
    destruct (strings.HasPrefix address "SRS1=");
    destruct (isCleanEmail address); simpl; split; intros H;
    try discriminate; try (destruct H; discriminate); auto.
Qed.

(** C5. When the address of a request is unrecognized, or is SRS-prefixed
    and does not decode, the handler's responses are the single line
    [200 <fallback>] if the configured fallback address is not empty, and
    the single line [500 invalid request] if it is empty. *)
Theorem fallback_policy (conn : Conn) (cfg : Config) (line : string) :
  ReadString conn LF = Ok line ->
  strings.HasPrefix (strings.TrimSpace line) "get " = true ->
  let address := strings.TrimSpace (slice_from 4 (strings.TrimSpace line)) in
  classify address = Unrecognized
  \/ (is_srs (classify address) = true /\ is_err (decodeSRS address) = true) ->
  (FallbackAddress cfg <> "" ->
   responses (handle conn cfg) = ["200 " ++ FallbackAddress cfg ++ nl]) /\
  (FallbackAddress cfg = "" ->
   responses (handle conn cfg) = ["500 invalid request" ++ nl]).
Proof.
  intros Hread Hget address Hcase.
  run_handle Hread Hget. fold address.
  destruct Hcase as [Hun | [Hsrs Herr]].
  - apply classify_unrecognized in Hun as [-> ->].
    split; intros Hfb.
    + apply String.eqb_neq in Hfb. now rewrite Hfb.
    + now rewrite Hfb.
  - apply classify_srs in Hsrs. rewrite Hsrs.
    destruct (decodeSRS address) as [d|err]; [discriminate|].
    split; intros Hfb.
    + apply String.eqb_neq in Hfb. now rewrite Hfb.
    + now rewrite Hfb.
Qed.

Lemma fallback_policy_witness :
  (FallbackAddress (cfg0 "root@example.com") <> "" ->
   responses (handle {| incoming := "get SRS0=incomplete" ++ nl |}
                     (cfg0 "root@example.com"))
   = ["200 " ++ FallbackAddress (cfg0 "root@example.com") ++ nl]) /\
  (FallbackAddress (cfg0 "root@example.com") = "" ->
   responses (handle {| incoming := "get SRS0=incomplete" ++ nl |}
                     (cfg0 "root@example.com"))
   = ["500 invalid request" ++ nl]).
Proof.
  apply (fallback_policy {| incoming := "get SRS0=incomplete" ++ nl |}
           (cfg0 "root@example.com") ("get SRS0=incomplete" ++ nl));
    [reflexivity | reflexivity | right; split; reflexivity].
Defined.

(** C7. An address without SRS prefix that satisfies the clean-email
    rules is answered with [200] and the address itself, byte for byte:
    the handler logs it, writes that one line and closes. *)
Theorem clean_address_passthrough (conn : Conn) (cfg : Config) (line : string) :
  ReadString conn LF = Ok line ->
  strings.HasPrefix (strings.TrimSpace line) "get " = true ->
  let address := strings.TrimSpace (slice_from 4 (strings.TrimSpace line)) in
  strings.HasPrefix address "SRS0=" = false ->
  strings.HasPrefix address "SRS1=" = false ->
  clean_email_rules address ->
  handle conn cfg
  = [EvLog LogDebug "Address: %s, no decoding required" [address];
     EvWrite ("200 " ++ address ++ nl); EvClose]
  /\ responses (handle conn cfg) = ["200 " ++ address ++ nl].
Proof.
  intros Hread Hget address H0 H1 Hclean.
  apply isCleanEmail_rules in Hclean.
  run_handle Hread Hget. fold address.
  rewrite H0, H1, Hclean. split; reflexivity.
Qed.

Lemma clean_address_passthrough_witness :
  handle {| incoming := "get user@example.com" ++ nl |} (cfg0 "")
  = [EvLog LogDebug "Address: %s, no decoding required" ["user@example.com"];
     EvWrite ("200 " ++ "user@example.com" ++ nl); EvClose]
  /\ responses (handle {| incoming := "get user@example.com" ++ nl |} (cfg0 ""))
     = ["200 " ++ "user@example.com" ++ nl].
Proof.
  apply (clean_address_passthrough {| incoming := "get user@example.com" ++ nl |}
           (cfg0 "") ("get user@example.com" ++ nl));
    [reflexivity | reflexivity | reflexivity | reflexivity | ].
  apply isCleanEmail_rules. reflexivity.
Defined.

(** C10. A decoded address is returned as it is, without the clean-email
    check: whatever an SRS-prefixed address decodes to is the response.
    So [get SRS0====], which has four ["="] and empty fourth and fifth
    fields, is answered [200 @], although ["@"] fails the check. *)
Theorem decoded_not_revalidated :
  (forall conn cfg line decoded,
     ReadString conn LF = Ok line ->
     strings.HasPrefix (strings.TrimSpace line) "get " = true ->
     let address := strings.TrimSpace (slice_from 4 (strings.TrimSpace line)) in
     is_srs (classify address) = true ->
     decodeSRS address = Ok decoded ->
     responses (handle conn cfg) = ["200 " ++ decoded ++ nl]) /\
  (forall cfg,
     responses (handle {| incoming := "get SRS0====" ++ nl |} cfg)
     = ["200 @" ++ nl]) /\
  strings.HasPrefix "SRS0====" "SRS0=" = true /\
  strings.Count "SRS0====" "=" = 4 /\
  isCleanEmail "@" = false /\
  ~ clean_email_rules "@".
Proof.
  split; [|repeat split].
  - intros conn cfg line decoded Hread Hget address Hsrs Hdec.
    run_handle Hread Hget. fold address.
    apply classify_srs in Hsrs. now rewrite Hsrs, Hdec.
  - intros H. apply isCleanEmail_rules in H. discriminate.
Qed.

(** ** The startup sequence *)

Lemma monitor_app (ph : phase) (t1 t2 : list sysevent) :
  monitor ph (t1 ++ t2)%list
  = match monitor ph t1 with Some ph' => monitor ph' t2 | None => None end.
Proof.
  revert ph. induction t1 as [|e t1 IH]; intros ph; simpl; [reflexivity|].
  destruct (step ph e); [apply IH | reflexivity].
Qed.

Lemma trace_bind {A B} (m : M A) (f : A -> M B) (p : Proc) :
  trace_of (bind m f p)
  = (trace_of (m p)
     ++ match m p with
        | (_, p1, Ok a) => trace_of (f a p1)
        | (_, _, Err _) => []
        end)%list.
Proof.
  unfold bind, trace_of. destruct (m p) as [[t p1] [a|e]]; simpl.
  - destruct (f a p1) as [[t2 p2] r]. reflexivity.
  - now rewrite app_nil_r.
Qed.

Lemma moves_bind {A B} (ph ph' : phase) (m : M A) (f : A -> M B) :
  moves ph m ph' -> (forall a, moves ph' (f a) ph') ->
  moves ph (bind m f) ph'.
Proof.
  intros Hm Hf p. rewrite trace_bind, monitor_app, Hm.
  destruct (m p) as [[t p1] [a|e]]; [apply Hf | reflexivity].
Qed.

Lemma safe_bind {A B} (ph ph' : phase) (m : M A) (f : A -> M B) :
  moves ph m ph' -> (forall a, safe ph' (f a)) -> safe ph (bind m f).
Proof.
  intros Hm Hf p. rewrite trace_bind, monitor_app, Hm.
  destruct (m p) as [[t p1] [a|e]]; [apply Hf | now exists ph'].
Qed.

Lemma moves_safe {A} (ph ph' : phase) (m : M A) : moves ph m ph' -> safe ph m.
Proof. intros H p. exists ph'. apply H. Qed.

Lemma moves_attempt {A} (ph ph' : phase) (m : M A) :
  moves ph m ph' -> moves ph (attempt m) ph'.
Proof.
  intros H p. specialize (H p). unfold attempt, trace_of in *.
  now destruct (m p) as [[t p1] r].
Qed.

Lemma moves_emit (ph ph' : phase) (e : sysevent) :
  step ph e = Some ph' -> moves ph (emit e) ph'.
Proof. intros H p. unfold emit, trace_of. simpl. now rewrite H. Qed.

Lemma moves_ret {A} (ph : phase) (a : A) : moves ph (ret a) ph.
Proof. intros p. reflexivity. Qed.

Lemma moves_lift {A} (ph : phase) (r : result A) : moves ph (lift r) ph.
Proof. intros p. reflexivity. Qed.

Lemma moves_getproc (ph : phase) : moves ph getproc ph.
Proof. intros p. reflexivity. Qed.

Lemma moves_logFatal {A} (ph : phase) (format : string) (args : list string) :
  moves ph (@logFatal A format args) ph.
Proof. intros p. now destruct ph. Qed.

Lemma moves_exit {A} (ph : phase) (code : Z) : moves ph (@exit A code) ph.
Proof. intros p. now destruct ph. Qed.

Lemma moves_Setgid (w : World) (gid : Z) : moves Dropped (Setgid w gid) Dropped.
Proof. intros p. unfold Setgid, trace_of. now destruct (syscall_Setgid w gid). Qed.

Lemma moves_Setuid (w : World) (uid : Z) : moves Dropped (Setuid w uid) Dropped.
Proof. intros p. unfold Setuid, trace_of. now destruct (syscall_Setuid w uid). Qed.

(** Walks through a computation of [M] whose events all keep the phase. *)
Ltac keep_phase :=
  repeat first
    [ apply moves_ret | apply moves_lift | apply moves_getproc
    | apply moves_Setgid | apply moves_Setuid
    | apply moves_logFatal | apply moves_exit
    | apply moves_emit; reflexivity
    | apply moves_attempt
    | apply moves_bind; [|intros ?]
    | match goal with
      | |- moves _ (if ?b then _ else _) _ => destruct b
      | |- moves _ (match ?x with _ => _ end) _ => destruct x
      end ].

(** [dropPrivileges] is entered once per call, changes the identity only
    inside the call, and neither listens nor accepts. *)
Lemma dropPrivileges_moves (w : World) (u g : string) :
  moves Starting (dropPrivileges w u g) Dropped.
Proof.
  unfold dropPrivileges, logError, logInfo.
  apply moves_bind; [apply moves_emit; reflexivity | intros _].
  keep_phase.
Qed.

Lemma accept_loop_moves (cfg : Config) (outcomes : list (result Conn)) :
  moves Listening (accept_loop cfg outcomes) Listening.
Proof.
  induction outcomes as [|[conn|err] rest IH]; simpl; unfold logError;
    keep_phase; exact IH.
Qed.

(** Every run keeps the order: the monitor accepts it. *)
Lemma run_monitor (w : World) (p : Proc) :
  exists ph, monitor Starting (run w p) = Some ph.
Proof.
  revert p. change (safe Starting (main w)).
  unfold main, LoadConfig, InitLogging, logInfo.
  apply (safe_bind Starting Starting); [keep_phase | intros _].
  apply (safe_bind Starting Starting); [keep_phase | intros [cfg|err]].
  2:{ apply (moves_safe Starting Starting). keep_phase. }
  apply (safe_bind Starting Starting); [keep_phase | intros [_|err]].
  2:{ apply (moves_safe Starting Starting). keep_phase. }
  apply (safe_bind Starting Starting); [keep_phase | intros _].
  apply (safe_bind Starting Dropped);
    [apply moves_attempt, dropPrivileges_moves | intros [_|err]].
  2:{ apply (moves_safe Dropped Dropped). keep_phase. }
  destruct (net_Listen w (Listen cfg)).
  - apply (safe_bind Dropped Listening); [apply moves_emit; reflexivity | intros _].
    apply (moves_safe Listening Listening). keep_phase.
  - apply (safe_bind Dropped Listening); [apply moves_emit; reflexivity | intros _].
    apply (moves_safe Listening Listening). keep_phase.
    apply accept_loop_moves.
Qed.

(** What the monitor's verdict says about a trace, phase by phase. *)
Lemma monitor_Listening (tr : list sysevent) (ph : phase) :
  monitor Listening tr = Some ph ->
  existsb is_enter tr = false /\ existsb is_setid tr = false
  /\ existsb is_listen tr = false.
Proof.
  induction tr as [|e tr IH]; simpl; [auto|].
  destruct e; simpl; try discriminate; exact IH.
Qed.

Lemma monitor_Listening_again (pre post : list sysevent) (address : string)
      (bound : bool) :
  monitor Listening (pre ++ SysListen address bound :: post)%list = None.
Proof.
  induction pre as [|e pre IH]; simpl; [reflexivity|].
  destruct e; simpl; try reflexivity; exact IH.
Qed.

Lemma monitor_Dropped (pre post : list sysevent) (address : string)
      (bound : bool) (ph : phase) :
  monitor Dropped (pre ++ SysListen address bound :: post)%list = Some ph ->
  existsb is_enter pre = false /\ existsb is_accept pre = false
  /\ existsb is_listen pre = false /\ monitor Listening post = Some ph.
Proof.
  induction pre as [|e pre IH]; simpl; [auto|].
  destruct e; simpl; try discriminate; try exact IH.
  now rewrite monitor_Listening_again.
Qed.

Lemma monitor_Starting (pre post : list sysevent) (address : string)
      (bound : bool) (ph : phase) :
  monitor Starting (pre ++ SysListen address bound :: post)%list = Some ph ->
  List.length (filter is_enter pre) = 1 /\ existsb is_accept pre = false
  /\ existsb is_listen pre = false /\ monitor Listening post = Some ph.
Proof.
  induction pre as [|e pre IH]; simpl; [discriminate|].
  destruct e; simpl; try discriminate; try exact IH.
  intros H. apply monitor_Dropped in H as (He & Ha & Hl & Hp).
  repeat split; try assumption.
  f_equal. clear -He. induction pre as [|e pre IH]; [reflexivity|].
  simpl in *. apply orb_false_iff in He as [-> He]. now apply IH.
Qed.

Lemma monitor_enter_once (tr : list sysevent) (ph ph' : phase) :
  monitor ph tr = Some ph' ->
  List.length (filter is_enter tr)
  <= match ph with Starting => 1 | _ => 0 end.
Proof.
  revert ph. induction tr as [|e tr IH]; intros ph; simpl.
  - destruct ph; lia.
  - destruct (step ph e) as [ph1|] eqn:E; [|discriminate].
    intros H. specialize (IH ph1 H).
    destruct ph, e; simpl in *; try discriminate;
      injection E as <-; simpl in *; lia.
Qed.

(** C1, as the code has it.  [dropPrivileges] is entered at most once in
    a run; in a run that reaches [net.Listen] it has been entered exactly
    once BEFORE that call, it is not entered afterwards, the identity of
    the process is not changed afterwards, and no connection is accepted
    before the call.  (The step precedes the bind; it does not follow it.) *)
Theorem dropPrivileges_once_before_listen (w : World) (p : Proc) :
  List.length (filter is_enter (run w p)) <= 1 /\
  forall pre address bound post,
    run w p = (pre ++ SysListen address bound :: post)%list ->
    List.length (filter is_enter pre) = 1
    /\ existsb is_listen pre = false
    /\ existsb is_accept pre = false
    /\ existsb is_enter post = false
    /\ existsb is_setid post = false
    /\ existsb is_listen post = false.
Proof.
  destruct (run_monitor w p) as [ph Hm]. split.
  - exact (monitor_enter_once _ _ _ Hm).
  - intros pre address bound post E. rewrite E in Hm.
    apply monitor_Starting in Hm as (H1 & H2 & H3 & H4).
    apply monitor_Listening in H4 as (H5 & H6 & H7). auto 10.
Qed.

(** The run of [world0]: the socket is bound and a connection accepted,
    and [dropPrivileges] has run once, but before the bind, not between
    the bind and the first accept. *)
Lemma dropPrivileges_not_after_bind :
  existsb is_bound (run world0 root) = true
  /\ existsb is_accept (run world0 root) = true
  /\ List.length (filter is_enter (run world0 root)) = 1
  /\ existsb is_enter (after_first is_bound (run world0 root)) = false
  /\ existsb is_enter (before_first is_bound (run world0 root)) = true
  /\ drops_between_bind_and_accept (run world0 root) = false.
Proof. repeat split. Qed.

(** The same run, event by event. *)
Example run_world0 :
  run world0 root
  = [SysDecodeFile "/etc/srs-resolver/srs-resolver.conf";
     SysOpenFile "/var/log/srs-resolver.log";
     SysLog LogInfo "srs-resolver version %s starting..." ["1.0.0"];
     SysEnter_dropPrivileges "nobody" "nogroup";
     SysSetgid 65534; SysSetuid 65534;
     SysLog LogInfo "Running as user: %s (UID %s), group: %s (GID %s)"
       ["nobody"; "65534"; "nogroup"; "65534"];
     SysListen "127.0.0.1:10022" true;
     SysLog LogInfo "Listening on %s" ["127.0.0.1:10022"];
     SysAccept (Some {| incoming := "get user@example.com" ++ nl |});
     SysGo_handle {| incoming := "get user@example.com" ++ nl |}].
Proof. reflexivity. Qed.

(** ** The response is one line *)

(** Trimming, slicing and splitting return parts of their argument: a
    byte of the result is a byte of the argument. *)

Lemma rev_append_append (s acc : string) :
  strings.rev_append s acc = strings.rev s ++ acc.
Proof.
  unfold strings.rev. revert acc.
  induction s as [|a s IH]; intros acc; simpl; [reflexivity|].
  rewrite IH, (IH (String a "")), append_assoc. reflexivity.
Qed.

Lemma rev_app (a b : string) :
  strings.rev (a ++ b) = strings.rev b ++ strings.rev a.
Proof.
  induction a as [|x a IH]; simpl.
  - now rewrite append_nil_r.
  - unfold strings.rev in *. simpl.
    rewrite (rev_append_append (a ++ b)), (rev_append_append a).
    unfold strings.rev. now rewrite IH, append_assoc.
Qed.

Lemma Contains_rev (s : string) (c : ascii) :
  strings.Contains (strings.rev s) c = strings.Contains s c.
Proof.
  induction s as [|a s IH]; [reflexivity|].
  change (String a s) with (String a "" ++ s).
  rewrite rev_app, !Contains_append, IH. simpl.
  now rewrite orb_false_r, orb_comm.
Qed.

Lemma suffix_of_refl (s : string) : suffix_of s s.
Proof. now exists "". Qed.

Lemma suffix_of_cons (t s : string) (a : ascii) :
  suffix_of t s -> suffix_of t (String a s).
Proof. intros [pre ->]. now exists (String a pre). Qed.

Lemma suffix_of_Contains (t s : string) (c : ascii) :
  suffix_of t s -> strings.Contains s c = false -> strings.Contains t c = false.
Proof.
  intros [pre ->]. rewrite Contains_append. now intros [_ H]%orb_false_iff.
Qed.

Lemma TrimLeftSpace_suffix (s : string) : suffix_of (strings.TrimLeftSpace s) s.
Proof.
  assert (H : forall n s, String.length s <= n ->
                          suffix_of (strings.TrimLeftSpace s) s).
  { clear s. induction n as [|n IH]; intros s Hn.
    - destruct s; [apply suffix_of_refl | simpl in Hn; lia].
    - destruct s as [|a r]; [apply suffix_of_refl|]. simpl in Hn.
      cbn [strings.TrimLeftSpace].
      destruct (strings.asciiSpace a).
      { apply suffix_of_cons, IH. lia. }
      destruct r as [|b r2]; [apply suffix_of_refl|]. simpl in Hn.
      destruct (strings.space2 a b).
      { do 2 apply suffix_of_cons. apply IH. lia. }
      destruct r2 as [|c r3]; [apply suffix_of_refl|]. simpl in Hn.
      destruct (strings.space3 a b c); [|apply suffix_of_refl].
      do 3 apply suffix_of_cons. apply IH. lia. }
  now apply (H (String.length s)).
Qed.

Lemma TrimLeftSpace_rev_suffix (s : string) :
  suffix_of (strings.TrimLeftSpace_rev s) s.
Proof.
  assert (H : forall n s, String.length s <= n ->
                          suffix_of (strings.TrimLeftSpace_rev s) s).
  { clear s. induction n as [|n IH]; intros s Hn.
    - destruct s; [apply suffix_of_refl | simpl in Hn; lia].
    - destruct s as [|a r]; [apply suffix_of_refl|]. simpl in Hn.
      cbn [strings.TrimLeftSpace_rev].
      destruct (strings.asciiSpace a).
      { apply suffix_of_cons, IH. lia. }
      destruct r as [|b r2]; [apply suffix_of_refl|]. simpl in Hn.
      destruct (strings.space2 b a).
      { do 2 apply suffix_of_cons. apply IH. lia. }
      destruct r2 as [|c r3]; [apply suffix_of_refl|]. simpl in Hn.
      destruct (strings.space3 c b a); [|apply suffix_of_refl].
      do 3 apply suffix_of_cons. apply IH. lia. }
  now apply (H (String.length s)).
Qed.

Lemma TrimRightSpace_Contains (s : string) (c : ascii) :
  strings.Contains s c = false ->
  strings.Contains (strings.TrimRightSpace s) c = false.
Proof.
  intros H. unfold strings.TrimRightSpace. rewrite Contains_rev.
  apply (suffix_of_Contains _ _ _ (TrimLeftSpace_rev_suffix _)).
  now rewrite Contains_rev.
Qed.

Lemma TrimSpace_Contains (s : string) (c : ascii) :
  strings.Contains s c = false ->
  strings.Contains (strings.TrimSpace s) c = false.
Proof.
  intros H. apply TrimRightSpace_Contains.
  exact (suffix_of_Contains _ _ _ (TrimLeftSpace_suffix s) H).
Qed.

Lemma slice_from_Contains (n : nat) (s : string) (c : ascii) :
  strings.Contains s c = false -> strings.Contains (slice_from n s) c = false.
Proof.
  revert s. induction n as [|n IH]; intros [|a s]; simpl; auto.
  intros [_ H]%orb_false_iff. now apply IH.
Qed.

(** A line as [ReadString] returns it loses its only newline when it is
    trimmed. *)
Lemma suffix_of_line (t body : string) :
  suffix_of t (body ++ nl) -> strings.Contains body LF = false ->
  t = "" \/ exists body', t = body' ++ nl /\ strings.Contains body' LF = false.
Proof.
  intros [pre E]. revert body E.
  induction pre as [|a pre IH]; intros body E Hb; simpl in E.
  - right. exists body. now split.
  - destruct body as [|b body]; simpl in *.
    + injection E as _ E. destruct pre; [|discriminate]. now left.
    + injection E as _ E. apply orb_false_iff in Hb as [_ Hb]. now apply IH in E.
Qed.

Lemma TrimSpace_line (body : string) :
  strings.Contains body LF = false ->
  strings.Contains (strings.TrimSpace (body ++ nl)) LF = false.
Proof.
  intros Hb. unfold strings.TrimSpace.
  destruct (suffix_of_line _ _ (TrimLeftSpace_suffix (body ++ nl)) Hb)
    as [-> | (body' & -> & Hb')]; [reflexivity|].
  unfold strings.TrimRightSpace. rewrite Contains_rev, rev_app.
  change (strings.rev nl ++ strings.rev body') with (String LF (strings.rev body')).
  cbn [strings.TrimLeftSpace_rev].
  change (strings.asciiSpace LF) with true. cbv iota.
  apply (suffix_of_Contains _ _ _ (TrimLeftSpace_rev_suffix _)).
  now rewrite Contains_rev.
Qed.

Lemma ReadString_line (conn : Conn) (line : string) :
  ReadString conn LF = Ok line ->
  exists body, line = body ++ nl /\ strings.Contains body LF = false.
Proof.
  unfold ReadString. destruct (strings.cut (incoming conn) LF) as [[b a]|] eqn:E;
    [|discriminate].
  intros [= <-]. apply cut_Some in E as [_ Hb]. now exists b.
Qed.

Lemma genSplit_Contains (s : string) (sep c : ascii) (cuts : nat) :
  strings.Contains s c = false ->
  Forall (fun part => strings.Contains part c = false)
         (strings.genSplit s sep cuts).
Proof.
  revert s. induction cuts as [|k IH]; intros s H; simpl; [now constructor|].
  destruct (strings.cut s sep) as [[b a]|] eqn:E; [|now constructor].
  apply cut_Some in E as [-> _]. rewrite Contains_append in H.
  apply orb_false_iff in H as [Hb Ha]. simpl in Ha.
  apply orb_false_iff in Ha as [_ Ha]. constructor; [exact Hb | now apply IH].
Qed.

Lemma nth_Contains (parts : list string) (c : ascii) (i : nat) :
  Forall (fun part => strings.Contains part c = false) parts ->
  strings.Contains (nth i parts "") c = false.
Proof.
  intros H. revert i. induction H as [|x l Hx Hl IH]; intros [|i]; simpl; auto.
Qed.

Lemma decodeSRS_Contains (srs decoded : string) (c : ascii) :
  c <> "@"%char ->
  strings.Contains srs c = false -> decodeSRS srs = Ok decoded ->
  strings.Contains decoded c = false.
Proof.
  intros Hc Hs. unfold decodeSRS. cbv zeta. rewrite SplitN_genSplit.
  pose proof (genSplit_Contains srs "=" c 4 Hs) as Hparts.
  set (parts := strings.genSplit srs "=" 4) in *. clearbody parts.
  pose proof (nth_Contains _ c 3 Hparts) as H3.
  pose proof (nth_Contains _ c 4 Hparts) as H4.
  assert (Hat : strings.Contains (String "@" (nth 3 parts "")) c = false).
  { cbn [strings.Contains]. rewrite H3.
    destruct (Ascii.eqb_spec "@" c); [congruence | reflexivity]. }
  destruct (negb _); [discriminate|].
  destruct (strings.Contains (nth 4 parts "") "@"); intros E;
    injection E as <-; rewrite Contains_append; cbn [append]; rewrite Hat,
    orb_false_r.
  - apply nth_Contains, genSplit_Contains, H4.
  - exact H4.
Qed.

Lemma address_no_newline (conn : Conn) (line : string) :
  ReadString conn LF = Ok line ->
  strings.Contains
    (strings.TrimSpace (slice_from 4 (strings.TrimSpace line))) LF = false.
Proof.
  intros Hread. destruct (ReadString_line conn line Hread) as (body & -> & Hb).
  apply TrimSpace_Contains, slice_from_Contains, TrimSpace_line, Hb.
Qed.

(** C9, as the code has it.  On every path the handler writes exactly
    one payload, which ends with a newline, and then closes the
    connection: its trace is some log calls, one write, and the close.
    The payload is one line, its only newline being its last byte,
    whenever the configured fallback address holds no newline; the only
    payload that can hold another newline is the fallback answer. *)
Theorem one_response_then_close (conn : Conn) (cfg : Config) :
  exists logs text,
    handle conn cfg = (logs ++ [EvWrite (text ++ nl); EvClose])%list
    /\ forallb is_log logs = true
    /\ responses (handle conn cfg) = [text ++ nl]
    /\ (strings.Contains (FallbackAddress cfg) LF = false ->
        strings.Contains text LF = false
        /\ strings.Count (text ++ nl) LF = 1)
    /\ (strings.Contains text LF = true ->
        text = "200 " ++ FallbackAddress cfg).
Proof.
  assert (Hcount : forall text, strings.Contains text LF = false ->
                                strings.Count (text ++ nl) LF = 1).
  { intros text H. rewrite Count_append. apply Count_zero in H. now rewrite H. }
  assert (H200 : forall x, strings.Contains x LF = false ->
                           strings.Contains ("200 " ++ x) LF = false).
  { intros x H. now rewrite Contains_append, H. }
  assert (Hone : forall x, strings.Contains x LF = false ->
            (strings.Contains (FallbackAddress cfg) LF = false ->
             strings.Contains ("200 " ++ x) LF = false
             /\ strings.Count (("200 " ++ x) ++ nl) LF = 1)
            /\ (strings.Contains ("200 " ++ x) LF = true ->
                "200 " ++ x = "200 " ++ FallbackAddress cfg)).
  { intros x Hx. split; [intros _; split; [apply H200, Hx | apply Hcount, H200, Hx]|].
    intros C. rewrite (H200 _ Hx) in C. discriminate C. }
  assert (Hfb : (strings.Contains (FallbackAddress cfg) LF = false ->
                 strings.Contains ("200 " ++ FallbackAddress cfg) LF = false
                 /\ strings.Count (("200 " ++ FallbackAddress cfg) ++ nl) LF = 1)
                /\ (strings.Contains ("200 " ++ FallbackAddress cfg) LF = true ->
                    "200 " ++ FallbackAddress cfg = "200 " ++ FallbackAddress cfg)).
  { split; [intros Hf; split; [apply H200, Hf | apply Hcount, H200, Hf] | reflexivity]. }
  unfold handle, handle_body.
  destruct (ReadString conn LF) as [line|e] eqn:Hread.
  2:{ exists [], "500 read error". repeat split. discriminate. }
  pose proof (address_no_newline conn line Hread) as Haddr.
  cbv zeta.
  destruct (strings.HasPrefix (strings.TrimSpace line) "get ").
  2:{ exists [], "500 invalid request". repeat split. discriminate. }
  cbn [negb].
  set (address := strings.TrimSpace (slice_from 4 (strings.TrimSpace line))) in *.
  destruct (negb (strings.HasPrefix address "SRS0=")
            && negb (strings.HasPrefix address "SRS1=")).
  - destruct (isCleanEmail address);
      [|destruct (negb (FallbackAddress cfg =? ""))].
    + eexists [_], ("200 " ++ address).
      split; [now rewrite !append_assoc | split; [reflexivity|]].
      split; [now rewrite !append_assoc | exact (Hone _ Haddr)].
    + eexists [_], ("200 " ++ FallbackAddress cfg).
      split; [now rewrite !append_assoc | split; [reflexivity|]].
      split; [now rewrite !append_assoc | exact Hfb].
    + eexists [_], "500 invalid request". repeat split. discriminate.
  - destruct (decodeSRS address) as [d|err] eqn:D;
      [|destruct (negb (FallbackAddress cfg =? ""))].
    + assert (Hd : strings.Contains d LF = false)
        by (apply (decodeSRS_Contains address d LF);
            [discriminate | exact Haddr | exact D]).
      eexists [_], ("200 " ++ d).
      split; [now rewrite !append_assoc | split; [reflexivity|]].
      split; [now rewrite !append_assoc | exact (Hone _ Hd)].
    + eexists [_], ("200 " ++ FallbackAddress cfg).
      split; [now rewrite !append_assoc | split; [reflexivity|]].
      split; [now rewrite !append_assoc | exact Hfb].
    + eexists [_], "500 invalid request". repeat split. discriminate.
Qed.

(** C9, as the specification words it.  The fallback address is written
    as it is configured: with a newline in it, the handler writes two
    lines on the path of an unresolved address, so that no text without
    a newline is the line it wrote. *)
Lemma fallback_with_newline_two_lines :
  responses (handle {| incoming := "get nobody" ++ nl |}
                    (cfg0 ("a@x.org" ++ nl ++ "500 oops")))
  = ["200 a@x.org" ++ nl ++ "500 oops" ++ nl]
  /\ strings.Count ("200 a@x.org" ++ nl ++ "500 oops" ++ nl) LF = 2
  /\ ~ exists text,
        responses (handle {| incoming := "get nobody" ++ nl |}
                          (cfg0 ("a@x.org" ++ nl ++ "500 oops")))
        = [text ++ nl]
        /\ strings.Contains text LF = false.
Proof.
  split; [reflexivity | split; [reflexivity|]].
  intros (text & E & Hno).
  assert (C : strings.Count (text ++ nl) LF = 2) by (injection E as <-; reflexivity).
  rewrite Count_append in C. apply Count_zero in Hno. rewrite Hno in C.
  discriminate C.
Qed.

(** When the configured fallback address has no newline in it, the one
    payload the handler writes is a single line: its only newline is its
    last byte. *)
Theorem response_is_one_line (conn : Conn) (cfg : Config) :
  strings.Contains (FallbackAddress cfg) LF = false ->
  exists text,
    responses (handle conn cfg) = [text ++ nl]
    /\ strings.Contains text LF = false
    /\ strings.Count (text ++ nl) LF = 1.
Proof.
  intros Hfb.
  assert (Hcount : forall text, strings.Contains text LF = false ->
                                strings.Count (text ++ nl) LF = 1).
  { intros text H. rewrite Count_append. apply Count_zero in H. now rewrite H. }
  assert (H200 : forall x, strings.Contains x LF = false ->
                           strings.Contains ("200 " ++ x) LF = false).
  { intros x H. now rewrite Contains_append, H. }
  unfold handle, handle_body.
  destruct (ReadString conn LF) as [line|e] eqn:Hread.
  2:{ exists "500 read error". repeat split. }
  pose proof (address_no_newline conn line Hread) as Haddr.
  cbv zeta.
  destruct (strings.HasPrefix (strings.TrimSpace line) "get ").
  2:{ exists "500 invalid request". repeat split. }
  cbn [negb].
  set (address := strings.TrimSpace (slice_from 4 (strings.TrimSpace line))) in *.
  destruct (negb (strings.HasPrefix address "SRS0=")
            && negb (strings.HasPrefix address "SRS1=")).
  - destruct (isCleanEmail address);
      [|destruct (negb (FallbackAddress cfg =? ""))].
    + exists ("200 " ++ address). split; [now rewrite append_assoc | split; auto].
    + exists ("200 " ++ FallbackAddress cfg). split; [now rewrite append_assoc | split; auto].
    + exists "500 invalid request". repeat split.
  - destruct (decodeSRS address) as [d|err] eqn:D;
      [|destruct (negb (FallbackAddress cfg =? ""))].
    + assert (Hd : strings.Contains d LF = false)
        by (apply (decodeSRS_Contains address d LF); [discriminate | exact Haddr | exact D]).
      exists ("200 " ++ d). split; [now rewrite append_assoc | split; auto].
    + exists ("200 " ++ FallbackAddress cfg). split; [now rewrite append_assoc | split; auto].
    + exists "500 invalid request". repeat split.
Qed.

Lemma response_is_one_line_witness :
  exists text,
    responses (handle {| incoming := "get SRS0=incomplete" ++ nl |}
                      (cfg0 "root@example.com"))
    = [text ++ nl]
    /\ strings.Contains text LF = false
    /\ strings.Count (text ++ nl) LF = 1.
Proof.
  apply (response_is_one_line {| incoming := "get SRS0=incomplete" ++ nl |}
           (cfg0 "root@example.com")).
  reflexivity.
Defined.

(** The scenarios of the specification, run on the model. *)
Example scenarios :
  responses (handle {| incoming := "get SRS0=abc123=12345=example.com=damian" ++ nl |}
                    (cfg0 ""))
  = ["200 damian@example.com" ++ nl]
  /\ responses (handle {| incoming :=
                   "get SRS0=abc123=12345=example.com=user@forwarder.com" ++ nl |}
                   (cfg0 ""))
     = ["200 user@example.com" ++ nl]
  /\ responses (handle {| incoming := "get user@example.com" ++ nl |} (cfg0 ""))
     = ["200 user@example.com" ++ nl]
  /\ responses (handle {| incoming := "get SRS0=incomplete" ++ nl |} (cfg0 ""))
     = ["500 invalid request" ++ nl]
  /\ responses (handle {| incoming := "get SRS0=incomplete" ++ nl |}
                       (cfg0 "root@example.com"))
     = ["200 root@example.com" ++ nl]
  /\ responses (handle {| incoming := "put something" ++ nl |} (cfg0 ""))
     = ["500 invalid request" ++ nl]
  /\ responses (handle {| incoming := "get user@example.com" |} (cfg0 ""))
     = ["500 read error" ++ nl].
Proof. repeat split. Qed.

(** ** Fatal failures of the startup sequence *)

Lemma monitor_Listening_stays (tr : list sysevent) (ph : phase) :
  monitor Listening tr = Some ph -> ph = Listening.
Proof.
  induction tr as [|e tr IH]; simpl; [congruence|].
  destruct e; simpl; try discriminate; exact IH.
Qed.

Lemma monitor_before_listen (tr : list sysevent) (ph ph' : phase) :
  monitor ph tr = Some ph' -> ph' <> Listening ->
  existsb is_listen tr = false /\ existsb is_accept tr = false.
Proof.
  revert ph. induction tr as [|e tr IH]; intros ph H Hne; simpl; [auto|].
  simpl in H. destruct (step ph e) as [ph1|] eqn:E; [|discriminate].
  destruct (IH ph1 H Hne) as [-> ->].
  destruct ph, e; simpl in *; try discriminate; auto;
    injection E as <-; apply monitor_Listening_stays in H; congruence.
Qed.

Lemma ends_with_cons (x : sysevent) (l suffix : list sysevent) :
  (exists pre, l = (pre ++ suffix)%list) ->
  exists pre, x :: l = (pre ++ suffix)%list.
Proof. intros [pre ->]. now exists (x :: pre). Qed.

Lemma ends_with_app (l0 l suffix : list sysevent) :
  (exists pre, l = (pre ++ suffix)%list) ->
  exists pre, (l0 ++ l)%list = (pre ++ suffix)%list.
Proof. intros [pre ->]. exists (l0 ++ pre)%list. now rewrite app_assoc. Qed.

Ltac ends_with :=
  repeat first [ now (exists []) | apply ends_with_cons | apply ends_with_app ].

Ltac unfold_M :=
  unfold bind, attempt, emit, lift, ret, getproc, logError, logInfo,
    logFatal, exit, trace_of in *.

(** A failure of [dropPrivileges] or of [net.Listen] is fatal, before any
    connection is accepted.  When [dropPrivileges] returns an error the
    run has no [net.Listen] and no accept and ends with exit status 1,
    the last events of every run that entered [dropPrivileges] being
    the fatal message [Dropping privileges failed] and that exit.  When
    [net.Listen] fails no socket is bound, nothing is accepted and the
    run ends with exit status 1, the last events of every run that
    reached [net.Listen] being the failed call, the fatal message
    [Listen error] and that exit. *)
Theorem startup_failure_is_fatal (w : World) (p : Proc) (cfg : Config) :
  toml_DecodeFile w conf_path = Ok cfg ->
  (forall t p' e,
     dropPrivileges w (DropUser cfg) (DropGroup cfg) p = (t, p', Err e) ->
     existsb is_listen (run w p) = false
     /\ existsb is_accept (run w p) = false
     /\ (exists pre, run w p = (pre ++ [SysExit 1])%list)
     /\ (existsb is_enter (run w p) = true ->
         exists pre, run w p
                     = (pre ++ [SysFatal "Dropping privileges failed: %v" [e];
                                SysExit 1])%list))
  /\ (forall e,
        net_Listen w (Listen cfg) = Some e ->
        existsb is_bound (run w p) = false
        /\ existsb is_accept (run w p) = false
        /\ (exists pre, run w p = (pre ++ [SysExit 1])%list)
        /\ (existsb is_listen (run w p) = true ->
            exists pre, run w p
                        = (pre ++ [SysListen (Listen cfg) false;
                                   SysFatal "Listen error: %v" [e];
                                   SysExit 1])%list)).
Proof.
  intros Hcfg. split.
  - intros t p' e D.
    pose proof (dropPrivileges_moves w (DropUser cfg) (DropGroup cfg) p) as Hm.
    rewrite D in Hm. unfold trace_of in Hm. simpl in Hm.
    destruct (monitor_before_listen _ _ _ Hm) as [Hl Ha]; [discriminate|].
    unfold run, main, LoadConfig, InitLogging. unfold_M.
    fold conf_path. rewrite Hcfg.
    destruct (flag_v w || flag_version w); simpl;
      (destruct (negb (LogFile cfg =? "") && negb (flag_logtostdout w)); simpl;
       [destruct (os_OpenFile w (LogFile cfg)); simpl;
        [repeat split; try discriminate; ends_with|]|]);
      rewrite D; simpl; rewrite !existsb_app, Hl, Ha;
      (split; [reflexivity | split; [reflexivity | split; [|intros _]]]);
      ends_with.
  - intros e L.
    pose proof (dropPrivileges_moves w (DropUser cfg) (DropGroup cfg) p) as Hm.
    assert (Hb : forall t ph, monitor Starting t = Some ph -> ph <> Listening ->
                              existsb is_bound t = false).
    { intros t ph H Hne. destruct (monitor_before_listen _ _ _ H Hne) as [Hl _].
      clear -Hl. induction t as [|x t IH]; [reflexivity|]. simpl in *.
      apply orb_false_iff in Hl as [Hx Hl]. rewrite (IH Hl), orb_false_r.
      destruct x; try reflexivity. discriminate. }
    unfold trace_of in Hm.
    unfold run, main, LoadConfig, InitLogging. unfold_M.
    fold conf_path. rewrite Hcfg.
    destruct (flag_v w || flag_version w); simpl;
      (destruct (negb (LogFile cfg =? "") && negb (flag_logtostdout w)); simpl;
       [destruct (os_OpenFile w (LogFile cfg)); simpl;
        [repeat split; try discriminate; ends_with|]|]);
      (destruct (dropPrivileges w (DropUser cfg) (DropGroup cfg) p)
         as [[t p'] r];
       simpl in Hm;
       destruct (monitor_before_listen _ _ _ Hm) as [Hl Ha]; [discriminate|];
       specialize (Hb t Dropped Hm ltac:(discriminate));
       destruct r; simpl; [rewrite L; simpl|];
       rewrite ?existsb_app, ?Hb, ?Ha, ?Hl; simpl;
       (split; [reflexivity | split; [reflexivity | split; [|intros E]]]);
       try discriminate E; ends_with).
Qed.

Lemma startup_failure_is_fatal_witness :
  (run world1 root
   = [SysDecodeFile conf_path; SysOpenFile "/var/log/srs-resolver.log";
      SysLog LogInfo "srs-resolver version %s starting..." ["1.0.0"];
      SysEnter_dropPrivileges "nobody" "nogroup";
      SysFatal "Dropping privileges failed: %v"
        ["lookup group: group: unknown group nogroup"];
      SysExit 1]
   /\ existsb is_listen (run world1 root) = false
   /\ existsb is_accept (run world1 root) = false)
  /\ existsb is_listen (run world3 root) = true
  /\ exists pre,
       run world3 root
       = (pre ++ [SysListen "127.0.0.1:10022" false;
                  SysFatal "Listen error: %v"
                    ["listen tcp 127.0.0.1:10022: bind: address already in use"];
                  SysExit 1])%list.
Proof.
  split; [split; [reflexivity|] | split; [reflexivity|]].
  - destruct (startup_failure_is_fatal world1 root _ eq_refl) as [H _].
    destruct (H [SysEnter_dropPrivileges "nobody" "nogroup"] root
                "lookup group: group: unknown group nogroup" eq_refl)
      as (H1 & H2 & _).
    split; assumption.
  - destruct (startup_failure_is_fatal world3 root _ eq_refl) as [_ H].
    destruct (H _ eq_refl) as (_ & _ & _ & H4).
    exact (H4 eq_refl).
Defined.

(** ** More on the decoder *)

(** When [SplitN(s, sep, 5)] has five elements, the string is those five
    fields joined by the separator, and the first four are free of it. *)
Lemma SplitN_five (s : string) (sep : ascii) :
  List.length (strings.SplitN s sep 5) = 5 ->
  exists a b c d e,
    strings.SplitN s sep 5 = [a; b; c; d; e]
    /\ s = a ++ String sep (b ++ String sep (c ++ String sep (d ++ String sep e)))
    /\ strings.Contains a sep = false /\ strings.Contains b sep = false
    /\ strings.Contains c sep = false /\ strings.Contains d sep = false.
Proof.
  rewrite SplitN_genSplit. simpl.
  destruct (strings.cut s sep) as [[a s1]|] eqn:E1; [|discriminate].
  destruct (strings.cut s1 sep) as [[b s2]|] eqn:E2; [|discriminate].
  destruct (strings.cut s2 sep) as [[c s3]|] eqn:E3; [|discriminate].
  destruct (strings.cut s3 sep) as [[d e]|] eqn:E4; [|discriminate].
  intros _. exists a, b, c, d, e.
  apply cut_Some in E1 as [-> Ha], E2 as [-> Hb], E3 as [-> Hc], E4 as [-> Hd].
  repeat split; assumption.
Qed.

(** The part of [local] that [decodeSRS] keeps: [local] itself, or what
    precedes its first ["@"]. *)
Lemma Split_first (local : string) :
  exists user rest,
    nth 0 (strings.Split local "@") "" = user
    /\ strings.Contains user "@" = false
    /\ (local = user \/ local = user ++ String "@" rest).
Proof.
  unfold strings.Split.
  destruct (strings.cut local "@") as [[u r]|] eqn:E.
  - rewrite (cut_Count _ _ _ _ E). simpl. rewrite E.
    apply cut_Some in E as [-> Hu]. exists u, r. auto.
  - apply cut_None in E. pose proof E as E'. apply Count_zero in E'.
    rewrite E'. simpl. exists local, "". auto.
Qed.

(** Whatever [decodeSRS] accepts has the five-field shape, with any first
    field, and its answer is read off the last two fields: the local part
    up to its first ["@"], an ["@"], and the fourth field.  So the answer
    always holds an ["@"], nothing before the first ["@"] of the answer
    is lost from the fifth field, and the domain holds no ["="]. *)
Theorem decodeSRS_inversion (srs decoded : string) :
  decodeSRS srs = Ok decoded ->
  exists tag H T D L user,
    srs = tag ++ "=" ++ H ++ "=" ++ T ++ "=" ++ D ++ "=" ++ L
    /\ ~ occurs "=" tag /\ ~ occurs "=" H /\ ~ occurs "=" T /\ ~ occurs "=" D
    /\ decoded = user ++ "@" ++ D
    /\ ~ occurs "@" user
    /\ (L = user \/ exists rest, L = user ++ "@" ++ rest).
Proof.
  unfold decodeSRS. cbv zeta.
  destruct (Nat.eqb_spec (List.length (strings.SplitN srs "=" 5)) 5) as [H5|H5];
    [|discriminate].
  destruct (SplitN_five srs "=" H5) as (a & b & c & d & e & -> & E & Ha & Hb & Hc & Hd).
  cbn [negb nth]. intros Hdec.
  exists a, b, c, d, e.
  destruct (Split_first e) as (user & rest & Hu & Hno & Hshape).
  exists user. rewrite <- !Contains_false_occurs.
  repeat (split; [assumption|]).
  split; [|split; [exact Hno|]].
  - destruct (strings.Contains e "@") eqn:Hat; injection Hdec as <-.
    + now rewrite Hu.
    + destruct Hshape as [-> | ->]; [reflexivity|].
      rewrite Contains_append in Hat. simpl in Hat.
      now rewrite orb_true_r in Hat.
  - destruct Hshape as [-> | ->]; [now left | right; now exists rest].
Qed.

Lemma decodeSRS_inversion_witness :
  exists tag H T D L user,
    "x=1=2=d.org=u@f.com" = tag ++ "=" ++ H ++ "=" ++ T ++ "=" ++ D ++ "=" ++ L
    /\ ~ occurs "=" tag /\ ~ occurs "=" H /\ ~ occurs "=" T /\ ~ occurs "=" D
    /\ "u@d.org" = user ++ "@" ++ D
    /\ ~ occurs "@" user
    /\ (L = user \/ exists rest, L = user ++ "@" ++ rest).
Proof. apply (decodeSRS_inversion "x=1=2=d.org=u@f.com" "u@d.org"). reflexivity. Defined.

(** [decodeSRS] reads nothing of the first three fields: the tag, the
    hash and the time stamp can be replaced by any strings without ["="]
    and the answer stays the same.  In particular it does not check the
    tag (its caller does) and verifies no hash. *)
Theorem decodeSRS_ignores_tag_hash_time (tag H T tag' H' T' rest : string) :
  ~ occurs "=" tag -> ~ occurs "=" H -> ~ occurs "=" T ->
  ~ occurs "=" tag' -> ~ occurs "=" H' -> ~ occurs "=" T' ->
  decodeSRS (tag ++ "=" ++ H ++ "=" ++ T ++ "=" ++ rest)
  = decodeSRS (tag' ++ "=" ++ H' ++ "=" ++ T' ++ "=" ++ rest).
Proof.
  intros H1 H2 H3 H4 H5 H6.
  apply Contains_false_occurs in H1, H2, H3, H4, H5, H6.
  unfold decodeSRS. rewrite !SplitN_genSplit.
  cbn [append strings.genSplit].
  rewrite !cut_app by assumption. reflexivity.
Qed.

Lemma decodeSRS_ignores_tag_hash_time_witness :
  decodeSRS ("SRS0" ++ "=" ++ "abc123" ++ "=" ++ "12345" ++ "=" ++ "example.com=u")
  = decodeSRS ("anything" ++ "=" ++ "" ++ "=" ++ "" ++ "=" ++ "example.com=u").
Proof.
  apply (decodeSRS_ignores_tag_hash_time "SRS0" "abc123" "12345" "anything" "" "");
    intros H; apply Contains_occurs in H; discriminate H.
Defined.

(** ** More on the clean-email check and the handler *)

Lemma HasPrefix_append (s prefix : string) :
  strings.HasPrefix s prefix = true -> exists rest, s = prefix ++ rest.
Proof.
  revert s. induction prefix as [|c prefix IH]; intros s H; simpl in *.
  - now exists s.
  - destruct s as [|a s]; [discriminate|].
    apply andb_true_iff in H as [Ha Hs]. apply Ascii.eqb_eq in Ha as ->.
    destruct (IH s Hs) as [rest ->]. now exists rest.
Qed.

Lemma no_eq_no_srs_prefix (s : string) :
  ~ occurs "=" s ->
  strings.HasPrefix s "SRS0=" = false /\ strings.HasPrefix s "SRS1=" = false.
Proof.
  intros Hs.
  assert (Hno : forall tag, strings.Contains tag "=" = true ->
                  strings.HasPrefix s tag = false).
  { intros tag Htag. destruct (strings.HasPrefix s tag) eqn:P; [|reflexivity].
    exfalso. apply HasPrefix_append in P as [rest E]. apply Hs.
    apply Contains_occurs. rewrite E, Contains_append, Htag. reflexivity. }
  split; now apply Hno.
Qed.

Lemma isCleanEmail_no_eq (s : string) : isCleanEmail s = true -> ~ occurs "=" s.
Proof.
  intros H. apply isCleanEmail_rules in H as (Hforb & _).
  apply (Hforb "="%char). simpl. tauto.
Qed.

(** A clean address is never taken for an SRS address, and conversely:
    the ["="] of the SRS tags is a forbidden character.  So the order of
    the two tests in [handle] does not matter, a clean address is
    classified [CleanEmail] whatever it looks like, and it is at least
    five bytes long (one before the ["@"], three after). *)
Theorem clean_is_not_srs (s : string) :
  isCleanEmail s = true ->
  strings.HasPrefix s "SRS0=" = false
  /\ strings.HasPrefix s "SRS1=" = false
  /\ classify s = CleanEmail
  /\ 5 <= String.length s.
Proof.
  intros H.
  destruct (no_eq_no_srs_prefix s (isCleanEmail_no_eq s H)) as [H0 H1].
  unfold classify. rewrite H0, H1, H. repeat split.
  apply isCleanEmail_rules in H as (_ & _ & l & d & -> & Hl & Hd & _).
  rewrite length_append. simpl. destruct l; [congruence|]. simpl. lia.
Qed.

Lemma clean_is_not_srs_witness :
  strings.HasPrefix "user@example.com" "SRS0=" = false
  /\ strings.HasPrefix "user@example.com" "SRS1=" = false
  /\ classify "user@example.com" = CleanEmail
  /\ 5 <= String.length "user@example.com".
Proof. apply (clean_is_not_srs "user@example.com"). reflexivity. Defined.

(** Round trip: wrap a clean address L@D as tag=H=T=D=L, with any hash
    and time stamp; [decodeSRS] gives back L@D, which is clean again, so
    the service would return it unchanged if asked a second time. *)
Theorem decodeSRS_of_clean_address (tag H T D L : string) :
  tag = "SRS0" \/ tag = "SRS1" ->
  ~ occurs "=" H -> ~ occurs "=" T ->
  isCleanEmail (L ++ "@" ++ D) = true ->
  decodeSRS (tag ++ "=" ++ H ++ "=" ++ T ++ "=" ++ D ++ "=" ++ L)
  = Ok (L ++ "@" ++ D)
  /\ classify (L ++ "@" ++ D) = CleanEmail.
Proof.
  intros Htag HH HT Hclean. split.
  2:{ destruct (no_eq_no_srs_prefix _ (isCleanEmail_no_eq _ Hclean)) as [H0 H1].
      unfold classify. now rewrite H0, H1, Hclean. }
  assert (HL : ~ occurs "@" L).
  { apply isCleanEmail_rules in Hclean as (_ & Hone & _).
    rewrite <- Count_count_occ, Count_append in Hone. simpl in Hone.
    apply Contains_false_occurs, Count_zero. lia. }
  assert (HD : ~ occurs "=" D).
  { apply isCleanEmail_rules in Hclean as (Hforb & _).
    intros HD. apply (Hforb "="%char); [simpl; tauto|].
    apply Contains_occurs. rewrite !Contains_append.
    apply Contains_occurs in HD. rewrite HD. now rewrite !orb_true_r. }
  unfold decodeSRS.
  rewrite SplitN_fields by auto using tag_no_eq. simpl.
  apply Contains_false_occurs in HL. now rewrite HL.
Qed.

Lemma decodeSRS_of_clean_address_witness :
  decodeSRS ("SRS0" ++ "=" ++ "h" ++ "=" ++ "t" ++ "=" ++ "example.com" ++ "=" ++ "user")
  = Ok ("user" ++ "@" ++ "example.com")
  /\ classify ("user" ++ "@" ++ "example.com") = CleanEmail.
Proof.
  apply (decodeSRS_of_clean_address "SRS0" "h" "t" "example.com" "user");
    [left; reflexivity | | | reflexivity];
    intros H; apply Contains_occurs in H; discriminate H.
Defined.

(** The whole trace of the handler on a [get] request, by what becomes of
    the address. *)
Lemma handle_get (conn : Conn) (cfg : Config) (line : string) :
  ReadString conn LF = Ok line ->
  strings.HasPrefix (strings.TrimSpace line) "get " = true ->
  let address := strings.TrimSpace (slice_from 4 (strings.TrimSpace line)) in
  exists level format rest,
    handle conn cfg
    = [EvLog level format (address :: rest);
       EvWrite (match resolution address with
                | Some answer => "200 " ++ answer ++ nl
                | None => if FallbackAddress cfg =? ""
                          then "500 invalid request" ++ nl
                          else "200 " ++ FallbackAddress cfg ++ nl
                end);
       EvClose]
    /\ level = match resolution address with
               | None => LogError
               | Some _ => if is_srs (classify address) then LogInfo else LogDebug
               end.
Proof.
  intros Hread Hget address. run_handle Hread Hget. fold address.
  unfold resolution, classify.
  destruct (strings.HasPrefix address "SRS0="); simpl;
    [|destruct (strings.HasPrefix address "SRS1="); simpl;
       [|destruct (isCleanEmail address); simpl]];
    try (destruct (decodeSRS address) as [d|err]);
    try (destruct (FallbackAddress cfg =? ""); simpl);
    do 3 eexists; split; reflexivity.
Qed.

(** What the handler logs.  A request that is not a [get] command (no
    line could be read, or another command) is answered without any log
    call.  A [get] request makes exactly one log call, naming the address
    first: it prints at every level when the address is not resolved
    ([logError]), from level info on when it was decoded ([logInfo]), and
    only at level debug when it was clean ([logDebug]). *)
Theorem handler_logging (conn : Conn) (cfg : Config) :
  (forall line,
     ReadString conn LF = Ok line ->
     strings.HasPrefix (strings.TrimSpace line) "get " = true ->
     let address := strings.TrimSpace (slice_from 4 (strings.TrimSpace line)) in
     exists level format rest,
       log_output LogDebug (handle conn cfg)
       = [EvLog level format (address :: rest)]
       /\ log_output LogInfo (handle conn cfg)
          = match classify address with
            | CleanEmail => []
            | _ => [EvLog level format (address :: rest)]
            end
       /\ log_output LogError (handle conn cfg)
          = match resolution address with
            | Some _ => []
            | None => [EvLog level format (address :: rest)]
            end)
  /\ ((forall line, ReadString conn LF = Ok line ->
                    strings.HasPrefix (strings.TrimSpace line) "get " = false) ->
      forall currentLogLevel, log_output currentLogLevel (handle conn cfg) = []).
Proof.
  split.
  - intros line Hread Hget address.
    destruct (handle_get conn cfg line Hread Hget) as (lv & fmt & rest & -> & Hlv).
    fold address in Hlv |- *. exists lv, fmt, rest. subst lv.
    unfold resolution. destruct (classify address); simpl;
      try (destruct (decodeSRS address)); simpl; repeat split.
  - intros Hnot currentLogLevel. unfold handle, handle_body.
    destruct (ReadString conn LF) as [line|e]; [|reflexivity].
    cbv zeta. now rewrite (Hnot line eq_refl).
Qed.

(** One request per connection: what the peer sends after its first
    newline is never read. *)
Theorem only_first_line_is_read (body rest : string) (cfg : Config) :
  ~ occurs LF body ->
  handle {| incoming := body ++ nl ++ rest |} cfg
  = handle {| incoming := body ++ nl |} cfg.
Proof.
  intros Hb. apply Contains_false_occurs in Hb.
  unfold handle, handle_body, ReadString. cbn [incoming].
  change (nl ++ rest) with (String LF rest). change nl with (String LF "").
  now rewrite !cut_app.
Qed.

Lemma only_first_line_is_read_witness :
  handle {| incoming := "get a@example.com" ++ nl ++ "get b@example.com" |} (cfg0 "")
  = handle {| incoming := "get a@example.com" ++ nl |} (cfg0 "").
Proof.
  apply (only_first_line_is_read "get a@example.com" "get b@example.com").
  intros H. apply Contains_occurs in H. discriminate H.
Defined.

(** The answer is [500 read error] exactly when the peer ends the stream
    without having sent a newline, whatever else it sent. *)
Theorem read_error_iff_no_newline (conn : Conn) (cfg : Config) :
  responses (handle conn cfg) = ["500 read error" ++ nl]
  <-> ~ occurs LF (incoming conn).
Proof.
  rewrite <- Contains_false_occurs, <- cut_None.
  destruct (ReadString conn LF) as [line|e] eqn:Hread.
  - assert (Hcut : strings.cut (incoming conn) LF <> None).
    { unfold ReadString in Hread.
      destruct (strings.cut (incoming conn) LF) as [[b a]|]; discriminate. }
    split; [|intros E; contradiction]. intros Hresp. exfalso.
    destruct (strings.HasPrefix (strings.TrimSpace line) "get ") eqn:Hget.
    + destruct (handle_get conn cfg line Hread Hget) as (lv & fmt & rest & E & _).
      rewrite E in Hresp. cbn [responses] in Hresp.
      destruct (resolution _); [inversion Hresp|].
      destruct (FallbackAddress cfg =? ""); inversion Hresp.
    + unfold handle, handle_body in Hresp. rewrite Hread in Hresp.
      cbv zeta in Hresp. rewrite Hget in Hresp. inversion Hresp.
  - unfold ReadString in Hread.
    destruct (strings.cut (incoming conn) LF) as [[b a]|] eqn:Hcut; [discriminate|].
    split; [reflexivity|]. intros _.
    unfold handle, handle_body, ReadString. now rewrite Hcut.
Qed.

(** ** More on [dropPrivileges] *)

Ltac unfold_drop H :=
  unfold dropPrivileges, Setgid, Setuid, Errorf, logError, logInfo, bind,
    emit, lift, ret, getproc in H;
  simpl in H.

(** Splits on the next answer of the environment that [H] waits for. *)
Ltac drop_step H :=
  match type of H with
  | context [String.eqb ?x ?y] => destruct (String.eqb_spec x y); simpl in H
  | context [user_LookupGroup ?w ?g] =>
      destruct (user_LookupGroup w g) eqn:?; simpl in H
  | context [user_Lookup ?w ?u] =>
      destruct (user_Lookup w u) eqn:?; simpl in H
  | context [strconv_Atoi ?w ?x] =>
      destruct (strconv_Atoi w x) eqn:?; simpl in H
  | context [syscall_Setgid ?w ?x] =>
      destruct (syscall_Setgid w x) eqn:?; simpl in H
  | context [syscall_Setuid ?w ?x] =>
      destruct (syscall_Setuid w x) eqn:?; simpl in H
  | context [user_LookupId ?w ?x] =>
      destruct (user_LookupId w x) eqn:?; simpl in H
  | context [user_LookupGroupId ?w ?x] =>
      destruct (user_LookupGroupId w x) eqn:?; simpl in H
  end.

(** The group is switched before the user, each at most once, and the
    procedure stops at the first failure: [Setuid] is only called when
    the group step was skipped (no group configured) or [Setgid]
    succeeded; [Setgid] is never called once [Setuid] has been.  A
    target left empty is not touched. *)
Theorem dropPrivileges_group_then_user (w : World) (u g : string) (p : Proc) :
  let t := trace_of (dropPrivileges w u g p) in
  group_then_user (filter is_setid t)
  /\ (g = "" -> existsb is_setgid t = false)
  /\ (u = "" -> existsb is_setuid t = false)
  /\ (existsb is_setuid t = true ->
      g = "" \/ exists grp gid,
                 user_LookupGroup w g = Ok grp
                 /\ strconv_Atoi w (Gid grp) = Ok gid
                 /\ syscall_Setgid w gid = None).
Proof.
  unfold trace_of.
  destruct (dropPrivileges w u g p) as [[t p'] r] eqn:H.
  unfold_drop H. repeat drop_step H; injection H as <- <- <-; simpl;
    repeat split; try (intros; congruence); try exact I;
    intros _; try (left; assumption); right; eauto.
Qed.

(** When [dropPrivileges] returns without error, the effective group is
    the one the configured group name resolves to (and [Setgid] accepted
    it), or the old one when no group is configured; the same for the
    user; and both identities are known to the user database. *)
Theorem dropPrivileges_success (w : World) (u g : string) (p p' : Proc)
        (t : list sysevent) :
  dropPrivileges w u g p = (t, p', Ok tt) ->
  (if g =? "" then egid p' = egid p
   else exists grp, user_LookupGroup w g = Ok grp
                    /\ strconv_Atoi w (Gid grp) = Ok (egid p')
                    /\ syscall_Setgid w (egid p') = None)
  /\ (if u =? "" then euid p' = euid p
      else exists usr, user_Lookup w u = Ok usr
                       /\ strconv_Atoi w (Uid usr) = Ok (euid p')
                       /\ syscall_Setuid w (euid p') = None)
  /\ (exists newUser newGroup,
        user_LookupId w (euid p') = Ok newUser
        /\ user_LookupGroupId w (egid p') = Ok newGroup).
Proof.
  intros H. unfold_drop H.
  repeat drop_step H; try discriminate H; injection H as <- <-;
    repeat match goal with
           | E : ?x = "" |- _ => rewrite E in *; clear E
           | N : ?x <> "" |- _ => apply String.eqb_neq in N; rewrite N; clear N
           end;
    simpl; repeat split; eauto.
Qed.

Lemma dropPrivileges_success_witness :
  (if "nogroup" =? "" then 65534%Z = egid root
   else exists grp, user_LookupGroup world0 "nogroup" = Ok grp
                    /\ strconv_Atoi world0 (Gid grp) = Ok 65534%Z
                    /\ syscall_Setgid world0 65534%Z = None)
  /\ (if "nobody" =? "" then 65534%Z = euid root
      else exists usr, user_Lookup world0 "nobody" = Ok usr
                       /\ strconv_Atoi world0 (Uid usr) = Ok 65534%Z
                       /\ syscall_Setuid world0 65534%Z = None)
  /\ (exists newUser newGroup,
        user_LookupId world0 65534%Z = Ok newUser
        /\ user_LookupGroupId world0 65534%Z = Ok newGroup).
Proof.
  exact (dropPrivileges_success world0 "nobody" "nogroup" root
           {| euid := 65534; egid := 65534 |} _ eq_refl).
Defined.

(** Staying root is not an error.  When [dropPrivileges] returns without
    error it has logged, as its last event, the names it runs under; the
    warning about the root user is logged (at error level) exactly when
    that user is named [root], the warning about the root group exactly
    when that group is named [root]. *)
Theorem dropPrivileges_warns_about_root (w : World) (u g : string)
        (p p' : Proc) (t : list sysevent) :
  dropPrivileges w u g p = (t, p', Ok tt) ->
  exists newUser newGroup,
    user_LookupId w (euid p') = Ok newUser
    /\ user_LookupGroupId w (egid p') = Ok newGroup
    /\ (In warning_root_user t <-> Username newUser = "root")
    /\ (In warning_root_group t <-> Name newGroup = "root")
    /\ last t (SysExit 0)
       = SysLog LogInfo "Running as user: %s (UID %s), group: %s (GID %s)"
           [Username newUser; Uid newUser; Name newGroup; Gid newGroup].
Proof.
  intros H. unfold_drop H.
  repeat drop_step H; try discriminate H; injection H as <- <-;
    do 2 eexists; (split; [eassumption|]); (split; [eassumption|]);
    unfold warning_root_user, warning_root_group; simpl;
    (split; [|split; [|reflexivity]]); split; intros Hin;
    try assumption; try tauto;
    repeat match type of Hin with
           | _ \/ _ => destruct Hin as [Hin|Hin]
           | False => contradiction
           | _ = _ => try discriminate Hin; try (injection Hin as Hin)
           end;
    try congruence.
Qed.

Lemma dropPrivileges_warns_about_root_witness :
  exists newUser newGroup,
    user_LookupId world2 (euid root) = Ok newUser
    /\ user_LookupGroupId world2 (egid root) = Ok newGroup
    /\ (In warning_root_user
           [SysEnter_dropPrivileges "" ""; warning_root_user; warning_root_group;
            SysLog LogInfo "Running as user: %s (UID %s), group: %s (GID %s)"
              ["root"; "65534"; "root"; "65534"]]
        <-> Username newUser = "root")
    /\ (In warning_root_group
           [SysEnter_dropPrivileges "" ""; warning_root_user; warning_root_group;
            SysLog LogInfo "Running as user: %s (UID %s), group: %s (GID %s)"
              ["root"; "65534"; "root"; "65534"]]
        <-> Name newGroup = "root")
    /\ last [SysEnter_dropPrivileges "" ""; warning_root_user; warning_root_group;
             SysLog LogInfo "Running as user: %s (UID %s), group: %s (GID %s)"
               ["root"; "65534"; "root"; "65534"]] (SysExit 0)
       = SysLog LogInfo "Running as user: %s (UID %s), group: %s (GID %s)"
           [Username newUser; Uid newUser; Name newGroup; Gid newGroup].
Proof.
  exact (dropPrivileges_warns_about_root world2 "" "" root root _ eq_refl).
Defined.

(** ** More on [main] *)

Ltac unfold_startup :=
  unfold logError, logInfo, bind, attempt, emit, lift, ret, getproc,
    logFatal, exit, trace_of in *.

Lemma handlers_app (t1 t2 : list sysevent) :
  handlers (t1 ++ t2)%list = (handlers t1 ++ handlers t2)%list.
Proof.
  induction t1 as [|e t1 IH]; [reflexivity|].
  destruct e; simpl; rewrite IH; reflexivity.
Qed.

Lemma connection_errors_app (t1 t2 : list sysevent) :
  connection_errors (t1 ++ t2)%list
  = (connection_errors t1 ++ connection_errors t2)%list.
Proof.
  induction t1 as [|e t1 IH]; [reflexivity|].
  destruct e as [| | |lv f a| | | | | | | |]; simpl; try exact IH.
  destruct lv; try exact IH.
  destruct a as [|x [|y a]]; try exact IH.
  destruct (f =? "Connection error: %v"); simpl; now rewrite IH.
Qed.

Lemma accept_loop_dispatch (cfg : Config) (outcomes : list (result Conn)) (p : Proc) :
  let t := trace_of (accept_loop cfg outcomes p) in
  handlers t = accepted_conns outcomes
  /\ connection_errors t = accept_errors outcomes
  /\ List.length (filter is_accept t) = List.length outcomes
  /\ existsb is_bound t = false.
Proof.
  induction outcomes as [|[conn|err] rest IH]; simpl; [repeat split| |];
    rewrite !trace_bind; simpl; destruct IH as (H1 & H2 & H3 & H4);
    rewrite ?trace_bind; simpl; rewrite H1, H2, H3, H4; repeat split.
Qed.

Lemma dropPrivileges_serves_nothing (w : World) (u g : string) (p : Proc) :
  let t := trace_of (dropPrivileges w u g p) in
  handlers t = [] /\ connection_errors t = []
  /\ filter is_accept t = [] /\ existsb is_bound t = false.
Proof.
  unfold trace_of.
  destruct (dropPrivileges w u g p) as [[t p'] r] eqn:H.
  unfold_drop H. repeat drop_step H; injection H as <- <- <-; repeat split.
Qed.

(** The accept loop serves every connection and survives every error.
    Once the socket is bound, each connection that [ln.Accept()] returns
    is handed to exactly one handler, in the order of arrival; each error
    of [ln.Accept()] is logged and the loop goes on to the next accept.
    Without a bound socket nothing is accepted and no handler runs. *)
Theorem accepted_connections_are_handled (w : World) (p : Proc) :
  (existsb is_bound (run w p) = true ->
   handlers (run w p) = accepted_conns (accepted w)
   /\ connection_errors (run w p) = accept_errors (accepted w)
   /\ List.length (filter is_accept (run w p)) = List.length (accepted w))
  /\ (existsb is_bound (run w p) = false ->
      handlers (run w p) = [] /\ filter is_accept (run w p) = []).
Proof.
  pose proof (dropPrivileges_serves_nothing w) as HD.
  pose proof (fun cfg => accept_loop_dispatch cfg (accepted w)) as HA.
  unfold run, main, LoadConfig, InitLogging. unfold_startup.
  destruct (flag_v w || flag_version w); simpl;
    (destruct (toml_DecodeFile w _) as [cfg|e]; simpl;
     [|split; [discriminate | split; reflexivity]]);
    (destruct (negb (LogFile cfg =? "") && negb (flag_logtostdout w)); simpl;
     [destruct (os_OpenFile w (LogFile cfg)); simpl;
      [split; [discriminate | split; reflexivity]|]|]);
    (specialize (HD (DropUser cfg) (DropGroup cfg) p);
     destruct (dropPrivileges w (DropUser cfg) (DropGroup cfg) p) as [[t p'] r];
     simpl in HD; destruct HD as (D1 & D2 & D3 & D4);
     destruct r; simpl;
     [destruct (net_Listen w (Listen cfg)); simpl;
      [|specialize (HA cfg p');
        destruct (accept_loop cfg (accepted w) p') as [[t' p''] r'];
        simpl in HA; destruct HA as (A1 & A2 & A3 & A4); simpl]|]);
    rewrite ?existsb_app, ?handlers_app, ?connection_errors_app, ?filter_app,
      ?D1, ?D2, ?D3, ?D4; simpl;
    rewrite ?existsb_app, ?handlers_app, ?connection_errors_app, ?filter_app,
      ?A1, ?A2, ?A3, ?A4, ?orb_true_r; simpl;
    (split; [intros E; try discriminate E; repeat split | intros E; try discriminate E; repeat split]).
Qed.

(** The flags [-v] and [-version] print the banner and nothing else: the
    program does not stop there, it goes on to start the service exactly
    as it does without the flag. *)
Theorem version_flag_only_prints_banner (w : World) (p : Proc) :
  flag_v w || flag_version w = true ->
  run w p = SysPrintln banner :: run (without_version_flags w) p.
Proof.
  intros H.
  change (trace_of (main w p)
          = SysPrintln banner :: trace_of (main (without_version_flags w) p)).
  unfold main. rewrite H.
  cbn [without_version_flags flag_v flag_version orb].
  rewrite !trace_bind. reflexivity.
Qed.

Lemma version_flag_only_prints_banner_witness :
  run world2 root = SysPrintln banner :: run (without_version_flags world2) root.
Proof. apply (version_flag_only_prints_banner world2 root). reflexivity. Defined.

(** The run of [world2]: started as root with [-v] and nothing to drop
    to, the service prints the banner, warns twice, binds, logs the
    failed accept and serves the two connections that follow. *)
Example run_world2 :
  run world2 root
  = [SysPrintln banner;
     SysDecodeFile conf_path;
     SysLog LogInfo "srs-resolver version %s starting..." ["1.0.0"];
     SysEnter_dropPrivileges "" "";
     warning_root_user; warning_root_group;
     SysLog LogInfo "Running as user: %s (UID %s), group: %s (GID %s)"
       ["root"; "65534"; "root"; "65534"];
     SysListen "127.0.0.1:10022" true;
     SysLog LogInfo "Listening on %s" ["127.0.0.1:10022"];
     SysAccept None;
     SysLog LogError "Connection error: %v" ["accept: too many open files"];
     SysAccept (Some {| incoming := "get user@example.com" ++ nl |});
     SysGo_handle {| incoming := "get user@example.com" ++ nl |};
     SysAccept (Some {| incoming := "put" ++ nl |});
     SysGo_handle {| incoming := "put" ++ nl |}].
Proof. reflexivity. Qed.

Lemma dropPrivileges_opens_nothing (w : World) (u g : string) (p : Proc) :
  existsb is_openfile (trace_of (dropPrivileges w u g p)) = false.
Proof.
  unfold trace_of.
  destruct (dropPrivileges w u g p) as [[t p'] r] eqn:H.
  unfold_drop H. repeat drop_step H; injection H as <- <- <-; reflexivity.
Qed.

Lemma accept_loop_opens_nothing (cfg : Config) (outcomes : list (result Conn))
      (p : Proc) :
  existsb is_openfile (trace_of (accept_loop cfg outcomes p)) = false.
Proof.
  induction outcomes as [|[conn|err] rest IH]; simpl; [reflexivity| |];
    rewrite !trace_bind; simpl; rewrite ?trace_bind; simpl; exact IH.
Qed.

(** A failure before the service starts.  When the configuration file
    cannot be decoded, or the log file cannot be opened, the program
    prints the error on standard output and exits with status 1: it has
    not logged anything, not touched its identity and not listened.
    With no log file configured, or with [-logtostdout], [os.OpenFile]
    is never called, so that no log file is opened or created; the
    configuration file is read all the same, by [toml.DecodeFile]. *)
Theorem early_failure_exits (w : World) (p : Proc) :
  (forall e,
     toml_DecodeFile w conf_path = Err e ->
     run w p
     = ((if flag_v w || flag_version w then [SysPrintln banner] else [])
        ++ [SysDecodeFile conf_path;
            SysPrintln ["[FATAL] Config error: "; e]; SysExit 1])%list)
  /\ (forall cfg e,
        toml_DecodeFile w conf_path = Ok cfg ->
        LogFile cfg <> "" -> flag_logtostdout w = false ->
        os_OpenFile w (LogFile cfg) = Some e ->
        run w p
        = ((if flag_v w || flag_version w then [SysPrintln banner] else [])
           ++ [SysDecodeFile conf_path; SysOpenFile (LogFile cfg);
               SysPrintln ["[FATAL] Logging error: "; e]; SysExit 1])%list)
  /\ (forall cfg,
        toml_DecodeFile w conf_path = Ok cfg ->
        LogFile cfg = "" \/ flag_logtostdout w = true ->
        existsb is_openfile (run w p) = false
        /\ In (SysDecodeFile conf_path) (run w p)).
Proof.
  split; [|split].
  - intros e E. unfold run, main, LoadConfig. unfold_startup.
    fold conf_path. rewrite E. now destruct (flag_v w || flag_version w).
  - intros cfg e E Hfile Hflag Hopen.
    unfold run, main, LoadConfig, InitLogging. unfold_startup.
    fold conf_path. rewrite E.
    apply String.eqb_neq in Hfile. rewrite Hfile, Hflag, Hopen.
    now destruct (flag_v w || flag_version w).
  - intros cfg E Hno.
    assert (C : negb (LogFile cfg =? "") && negb (flag_logtostdout w) = false).
    { destruct Hno as [-> | ->]; [reflexivity | apply andb_false_r]. }
    pose proof (dropPrivileges_opens_nothing w (DropUser cfg) (DropGroup cfg) p) as HD.
    pose proof (accept_loop_opens_nothing cfg (accepted w)) as HA.
    unfold run, main, LoadConfig, InitLogging. unfold_startup.
    fold conf_path. rewrite E, C.
    destruct (flag_v w || flag_version w); simpl;
      (destruct (dropPrivileges w (DropUser cfg) (DropGroup cfg) p)
         as [[t p'] r];
       simpl in HD; destruct r; simpl;
       [destruct (net_Listen w (Listen cfg)); simpl;
        [|specialize (HA p');
          destruct (accept_loop cfg (accepted w) p') as [[t' p''] r'];
          simpl in HA; simpl]|]);
      (split; [rewrite ?existsb_app, ?HD; simpl; rewrite ?existsb_app, ?HA;
               reflexivity | auto]).
Qed.

Lemma early_failure_exits_witness :
  existsb is_openfile (run world2 root) = false
  /\ In (SysDecodeFile conf_path) (run world2 root).
Proof.
  destruct (early_failure_exits world2 root) as (_ & _ & H).
  apply (H (cfg0 "")); [reflexivity | left; reflexivity].
Defined.

(** ** The two programs of the repository *)

Lemma cmd_decodeSRS (srs : string) :
  cmd.decodeSRS srs
  = match decodeSRS srs with
    | Ok decoded => Ok decoded
    | Err _ => Err "nieprawidłowy format SRS - nieprawidłowa liczba części"
    end.
Proof.
  unfold cmd.decodeSRS, decodeSRS. cbv zeta.
  destruct (negb _); [reflexivity|].
  now destruct (strings.Contains _ _).
Qed.

(** The earlier handler and the later one cannot be told apart on the
    wire: for every connection and configuration they write the same
    bytes, make their log calls at the same levels, and their decoders
    accept the same strings with the same results.  They differ in the
    text of the log messages only. *)
Theorem earlier_handler_same_answers (conn : Conn) (cfg : Config) :
  responses (cmd.handle conn cfg) = responses (handle conn cfg)
  /\ log_levels (cmd.handle conn cfg) = log_levels (handle conn cfg)
  /\ (forall srs decoded,
        cmd.decodeSRS srs = Ok decoded <-> decodeSRS srs = Ok decoded)
  /\ (forall srs, is_err (cmd.decodeSRS srs) = is_err (decodeSRS srs)).
Proof.
  assert (Hdec : forall srs decoded,
             cmd.decodeSRS srs = Ok decoded <-> decodeSRS srs = Ok decoded).
  { intros srs decoded. rewrite cmd_decodeSRS.
    destruct (decodeSRS srs); split; congruence. }
  assert (Herr : forall srs, is_err (cmd.decodeSRS srs) = is_err (decodeSRS srs)).
  { intros srs. rewrite cmd_decodeSRS. now destruct (decodeSRS srs). }
  repeat split; try apply Hdec; try apply Herr;
    unfold cmd.handle, cmd.handle_body, handle, handle_body;
    (destruct (ReadString conn LF) as [line|e]; [|reflexivity]);
    cbv zeta;
    (destruct (strings.HasPrefix (strings.TrimSpace line) "get ");
     [|reflexivity]);
    cbn [negb];
    set (address := strings.TrimSpace (slice_from 4 (strings.TrimSpace line)));
    rewrite cmd_decodeSRS;
    destruct (negb (strings.HasPrefix address "SRS0=")
              && negb (strings.HasPrefix address "SRS1="));
    try (destruct (isCleanEmail address));
    try (destruct (decodeSRS address));
    try (destruct (negb (FallbackAddress cfg =? "")));
    reflexivity.
Qed.

(** ** White space around the request *)

Lemma rev_involutive (s : string) : strings.rev (strings.rev s) = s.
Proof.
  induction s as [|a s IH]; [reflexivity|].
  change (String a s) with (String a "" ++ s).
  now rewrite rev_app, rev_app, IH.
Qed.

Lemma spaces_append (a b : string) : spaces (a ++ b) = spaces a && spaces b.
Proof.
  induction a as [|c a IH]; simpl; [reflexivity|].
  rewrite IH. now rewrite !andb_assoc.
Qed.

Lemma spaces_rev (pad : string) : spaces (strings.rev pad) = spaces pad.
Proof.
  induction pad as [|c pad IH]; [reflexivity|].
  change (String c pad) with (String c "" ++ pad).
  rewrite rev_app, !spaces_append, IH. apply andb_comm.
Qed.

Lemma blank_spaces (pad : string) : blank pad = true -> spaces pad = true.
Proof.
  induction pad as [|c pad IH]; simpl; [reflexivity|].
  intros [[Hc _]%andb_true_iff Hp]%andb_true_iff. now rewrite Hc, IH.
Qed.

Lemma blank_no_newline (pad : string) :
  blank pad = true -> strings.Contains pad LF = false.
Proof.
  induction pad as [|c pad IH]; simpl; [reflexivity|].
  intros [[_ Hc]%andb_true_iff Hp]%andb_true_iff.
  apply negb_true_iff in Hc. rewrite Hc. now apply IH.
Qed.

Lemma TrimLeftSpace_spaces (pad s : string) :
  spaces pad = true ->
  strings.TrimLeftSpace (pad ++ s) = strings.TrimLeftSpace s.
Proof.
  induction pad as [|c pad IH]; simpl; [reflexivity|].
  intros [Hc Hp]%andb_true_iff. rewrite Hc. now apply IH.
Qed.

Lemma TrimLeftSpace_rev_spaces (pad s : string) :
  spaces pad = true ->
  strings.TrimLeftSpace_rev (pad ++ s) = strings.TrimLeftSpace_rev s.
Proof.
  induction pad as [|c pad IH]; simpl; [reflexivity|].
  intros [Hc Hp]%andb_true_iff. rewrite Hc. now apply IH.
Qed.

Lemma TrimRightSpace_spaces (s pad : string) :
  spaces pad = true ->
  strings.TrimRightSpace (s ++ pad) = strings.TrimRightSpace s.
Proof.
  intros H. unfold strings.TrimRightSpace.
  rewrite rev_app, TrimLeftSpace_rev_spaces; [reflexivity|].
  now rewrite spaces_rev.
Qed.

Lemma suffix_of_length (t s : string) :
  suffix_of t s -> String.length t <= String.length s.
Proof. intros [pre ->]. rewrite length_append. lia. Qed.

Lemma space2_lead (a b : ascii) :
  (nat_of_ascii a <? 128)%nat = true -> strings.space2 a b = false.
Proof.
  intros H. apply Nat.ltb_lt in H. unfold strings.space2.
  destruct (Nat.eqb_spec (nat_of_ascii a) 194); [lia | reflexivity].
Qed.

Lemma space3_lead (a b c : ascii) :
  (nat_of_ascii a <? 128)%nat = true -> strings.space3 a b c = false.
Proof.
  intros H. apply Nat.ltb_lt in H. unfold strings.space3. cbv zeta.
  destruct (Nat.eqb_spec (nat_of_ascii a) 225); [lia|].
  destruct (Nat.eqb_spec (nat_of_ascii a) 226); [lia|].
  destruct (Nat.eqb_spec (nat_of_ascii a) 227); [lia | reflexivity].
Qed.

(** A reversed string that the right trim leaves alone is still left
    alone when ASCII bytes follow it (that is, precede it in the string). *)
Lemma TrimLeftSpace_rev_stops (ra rx : string) :
  ra <> "" -> strings.TrimLeftSpace_rev ra = ra -> isASCII rx = true ->
  strings.TrimLeftSpace_rev (ra ++ rx) = ra ++ rx.
Proof.
  intros Hne Hstop Hx.
  assert (Hshort : forall r pre, strings.TrimLeftSpace_rev r <> pre ++ String "000" r).
  { intros r pre E.
    pose proof (suffix_of_length _ _ (TrimLeftSpace_rev_suffix r)) as L.
    rewrite E, length_append in L. simpl in L. lia. }
  assert (Hshort' : forall r pre c, strings.TrimLeftSpace_rev r <> pre ++ String c r).
  { intros r pre c E.
    pose proof (suffix_of_length _ _ (TrimLeftSpace_rev_suffix r)) as L.
    rewrite E, length_append in L. simpl in L. lia. }
  destruct ra as [|c1 r]; [congruence|]. clear Hne.
  cbn [strings.TrimLeftSpace_rev append] in *.
  destruct (strings.asciiSpace c1).
  { exfalso. exact (Hshort' r "" c1 Hstop). }
  destruct r as [|c2 r2]; cbn [append] in *.
  - destruct rx as [|b rx2]; [reflexivity|]. simpl in Hx.
    apply andb_true_iff in Hx as [Hb Hx2].
    rewrite (space2_lead b c1 Hb).
    destruct rx2 as [|c rx3]; [reflexivity|]. simpl in Hx2.
    apply andb_true_iff in Hx2 as [Hc _].
    now rewrite (space3_lead c b c1 Hc).
  - destruct (strings.space2 c2 c1).
    { exfalso. exact (Hshort' r2 (String c1 "") c2 Hstop). }
    destruct r2 as [|c3 r3]; cbn [append] in *.
    + destruct rx as [|c rx2]; [reflexivity|]. simpl in Hx.
      apply andb_true_iff in Hx as [Hc _].
      now rewrite (space3_lead c c2 c1 Hc).
    + destruct (strings.space3 c3 c2 c1); [|reflexivity].
      exfalso. exact (Hshort' r3 (String c1 (String c2 "")) c3 Hstop).
Qed.

Lemma TrimRightSpace_stops (x a : string) :
  a <> "" -> strings.TrimRightSpace a = a -> isASCII x = true ->
  strings.TrimRightSpace (x ++ a) = x ++ a.
Proof.
  intros Hne Hstop Hx. unfold strings.TrimRightSpace in *.
  assert (Hra : strings.TrimLeftSpace_rev (strings.rev a) = strings.rev a).
  { rewrite <- (rev_involutive (strings.TrimLeftSpace_rev (strings.rev a))).
    now rewrite Hstop. }
  assert (Hrne : strings.rev a <> "").
  { intros E. apply Hne. rewrite <- (rev_involutive a), E. reflexivity. }
  assert (Hrx : isASCII (strings.rev x) = true).
  { clear -Hx. induction x as [|c x IH]; [reflexivity|].
    simpl in Hx. apply andb_true_iff in Hx as [Hc Hx].
    change (String c x) with (String c "" ++ x). rewrite rev_app.
    specialize (IH Hx). revert IH. generalize (strings.rev x).
    intros r. induction r as [|d r IHr]; simpl; intros Hr.
    - now rewrite Hc.
    - apply andb_true_iff in Hr as [-> Hr]. now apply IHr. }
  rewrite rev_app, (TrimLeftSpace_rev_stops _ _ Hrne Hra Hrx).
  now rewrite <- rev_app, rev_involutive.
Qed.

Lemma blank_isASCII (pad : string) : blank pad = true -> isASCII pad = true.
Proof.
  induction pad as [|c pad IH]; simpl; [reflexivity|].
  intros [[Hc _]%andb_true_iff Hp]%andb_true_iff. rewrite (IH Hp), andb_true_r.
  unfold strings.asciiSpace in Hc. cbv zeta in Hc. apply Nat.ltb_lt.
  apply orb_true_iff in Hc as [[_ H]%andb_true_iff | H].
  - apply Nat.leb_le in H. lia.
  - apply Nat.eqb_eq in H. lia.
Qed.

Lemma isASCII_append (a b : string) : isASCII (a ++ b) = isASCII a && isASCII b.
Proof.
  induction a as [|c a IH]; simpl; [reflexivity|]. now rewrite IH, andb_assoc.
Qed.

Lemma HasPrefix_prefix (prefix s : string) :
  strings.HasPrefix (prefix ++ s) prefix = true.
Proof.
  induction prefix as [|c prefix IH]; simpl.
  - now destruct s.
  - now rewrite Ascii.eqb_refl.
Qed.

(** The protocol does not mind blanks.  Spaces and tabs (any ASCII white
    space but the newline) before [get], between [get ] and the address
    and after the address change nothing: the handler does exactly what it
    does on the plain line.  Stated for an address that has no white
    space of its own at either end and no newline. *)
Theorem blanks_are_ignored (pad1 pad2 pad3 address : string) (cfg : Config) :
  blank pad1 = true -> blank pad2 = true -> blank pad3 = true ->
  address <> "" -> strings.TrimSpace address = address ->
  ~ occurs LF address ->
  handle {| incoming := pad1 ++ "get " ++ pad2 ++ address ++ pad3 ++ nl |} cfg
  = handle {| incoming := "get " ++ address ++ nl |} cfg.
Proof.
  intros H1 H2 H3 Hne Htrim Hnl. apply Contains_false_occurs in Hnl.
  assert (Hleft : strings.TrimLeftSpace address = address).
  { pose proof (suffix_of_length _ _ (TrimLeftSpace_suffix address)) as L1.
    pose proof (suffix_of_length _ _ (TrimLeftSpace_rev_suffix
                  (strings.rev (strings.TrimLeftSpace address)))) as L2.
    destruct (TrimLeftSpace_suffix address) as [pre E].
    assert (Hlen : String.length (strings.TrimLeftSpace address)
                   = String.length address).
    { assert (Hr : forall s, String.length (strings.rev s) = String.length s).
      { intros s. induction s as [|c s IH]; [reflexivity|].
        change (String c s) with (String c "" ++ s).
        rewrite rev_app, !length_append, IH. simpl. lia. }
      unfold strings.TrimSpace, strings.TrimRightSpace in Htrim.
      apply (f_equal String.length) in Htrim. rewrite Hr in Htrim.
      rewrite Hr in L2. lia. }
    rewrite E in Hlen at 2. rewrite length_append in Hlen.
    destruct pre; [exact (eq_sym E) | simpl in Hlen; lia]. }
  assert (Hright : strings.TrimRightSpace address = address).
  { unfold strings.TrimSpace in Htrim. now rewrite Hleft in Htrim. }
  assert (Hline : forall pada padb padc,
            blank pada = true -> blank padb = true -> blank padc = true ->
            ReadString {| incoming := pada ++ "get " ++ padb ++ address ++ padc ++ nl |} LF
            = Ok (pada ++ "get " ++ padb ++ address ++ padc ++ nl)
            /\ strings.TrimSpace (pada ++ "get " ++ padb ++ address ++ padc ++ nl)
               = "get " ++ padb ++ address).
  { intros pada padb padc Ha Hb Hc. split.
    - unfold ReadString. cbn [incoming].
      replace (pada ++ "get " ++ padb ++ address ++ padc ++ nl)
        with ((pada ++ "get " ++ padb ++ address ++ padc) ++ String LF "")
        by (now rewrite !append_assoc).
      rewrite cut_app; [reflexivity|].
      rewrite !Contains_append, Hnl.
      now rewrite (blank_no_newline _ Ha), (blank_no_newline _ Hb),
        (blank_no_newline _ Hc).
    - unfold strings.TrimSpace.
      rewrite (TrimLeftSpace_spaces _ _ (blank_spaces _ Ha)).
      change (strings.TrimLeftSpace ("get " ++ padb ++ address ++ padc ++ nl))
        with ("get " ++ padb ++ address ++ padc ++ nl).
      replace ("get " ++ padb ++ address ++ padc ++ nl)
        with ((("get " ++ padb) ++ address) ++ (padc ++ nl))
        by (now rewrite !append_assoc).
      rewrite TrimRightSpace_spaces
        by (rewrite spaces_append, (blank_spaces _ Hc); reflexivity).
      rewrite TrimRightSpace_stops; [now rewrite append_assoc | exact Hne
                                     | exact Hright |].
      rewrite isASCII_append. now rewrite (blank_isASCII _ Hb). }
  assert (Haddr : forall padb, blank padb = true ->
            strings.TrimSpace (slice_from 4 ("get " ++ padb ++ address)) = address).
  { intros padb Hb. cbn [slice_from append]. unfold strings.TrimSpace.
    now rewrite (TrimLeftSpace_spaces _ _ (blank_spaces _ Hb)), Hleft. }
  destruct (Hline pad1 pad2 pad3 H1 H2 H3) as [R1 T1].
  assert (Hplain :
            ReadString {| incoming := "get " ++ address ++ nl |} LF
            = Ok ("get " ++ address ++ nl)
            /\ strings.TrimSpace ("get " ++ address ++ nl) = "get " ++ address)
    by exact (Hline "" "" "" eq_refl eq_refl eq_refl).
  destruct Hplain as [R2 T2].
  assert (A2 : strings.TrimSpace (slice_from 4 ("get " ++ address)) = address)
    by exact (Haddr "" eq_refl).
  unfold handle, handle_body.
  rewrite R1, R2. cbv zeta. rewrite T1, T2, (Haddr pad2 H2), A2.
  now rewrite !HasPrefix_prefix.
Qed.

Lemma blanks_are_ignored_witness :
  handle {| incoming := "  " ++ "get " ++ "   " ++ "user@example.com" ++ " "
                         ++ nl |} (cfg0 "")
  = handle {| incoming := "get " ++ "user@example.com" ++ nl |} (cfg0 "").
Proof.
  apply (blanks_are_ignored "  " "   " " " "user@example.com" (cfg0 ""));
    try reflexivity; [discriminate|].
  intros H. apply Contains_occurs in H. discriminate H.
Defined.

(** ** Trimming, specified *)

(** [strings.TrimSpace] against the definition of white space: what it
    returns is the string without the white-space characters around it,
    and nothing else is. *)

Ltac each_White H :=
  simpl in H;
  repeat (destruct H as [H | H]; [subst | ]); [.. | contradiction].

(** Both trims drop an encoded white-space character. *)
Lemma TrimLeftSpace_utf8 (cp : N) (x : string) :
  In cp White_Space ->
  strings.TrimLeftSpace (utf8 cp ++ x) = strings.TrimLeftSpace x.
Proof. intros H. each_White H; reflexivity. Qed.

Lemma TrimLeftSpace_rev_utf8 (cp : N) (x : string) :
  In cp White_Space ->
  strings.TrimLeftSpace_rev (strings.rev (utf8 cp) ++ x)
  = strings.TrimLeftSpace_rev x.
Proof. intros H. each_White H; reflexivity. Qed.

(** So they drop white space altogether. *)
Lemma TrimLeftSpace_white (pre x : string) :
  white pre -> strings.TrimLeftSpace (pre ++ x) = strings.TrimLeftSpace x.
Proof.
  induction 1 as [|cp s Hcp Hs IH]; [reflexivity|].
  rewrite append_assoc, TrimLeftSpace_utf8 by assumption. exact IH.
Qed.

Lemma TrimLeftSpace_rev_white (post x : string) :
  white post ->
  strings.TrimLeftSpace_rev (strings.rev post ++ x) = strings.TrimLeftSpace_rev x.
Proof.
  intros H. revert x. induction H as [|cp s Hcp Hs IH]; intros x; [reflexivity|].
  rewrite rev_app, append_assoc, IH. now apply TrimLeftSpace_rev_utf8.
Qed.

Ltac pick_White :=
  vm_compute; repeat (first [left; reflexivity | right]).

(** Conversely, what the byte tests of the trims accept is the encoding
    of a white-space code point, and the bytes after the first are
    continuation bytes. *)
Lemma asciiSpace_White (a : ascii) :
  strings.asciiSpace a = true ->
  exists cp, In cp White_Space /\ utf8 cp = String a "".
Proof.
  intros H. exists (N_of_ascii a).
  destruct a as [[] [] [] [] [] [] [] []]; vm_compute in H; try discriminate H;
    (split; [pick_White | reflexivity]).
Qed.

Lemma space2_White (a b : ascii) :
  strings.space2 a b = true ->
  continuation b = true
  /\ exists cp, In cp White_Space /\ utf8 cp = String a (String b "").
Proof.
  intros H.
  destruct a as [[] [] [] [] [] [] [] []]; vm_compute in H; try discriminate H;
  destruct b as [[] [] [] [] [] [] [] []]; vm_compute in H; try discriminate H;
    (split; [reflexivity|]).
  - exists 133%N. split; [pick_White | reflexivity].
  - exists 160%N. split; [pick_White | reflexivity].
Qed.

Lemma byte_of_nat (a : ascii) (n : nat) : nat_of_ascii a = n -> a = ascii_of_nat n.
Proof. intros <-. symmetry. apply ascii_nat_embedding. Qed.

Ltac bytes :=
  repeat match goal with
         | H : nat_of_ascii ?a = _ |- _ => apply byte_of_nat in H; subst a
         end.

Lemma space3_White (a b c : ascii) :
  strings.space3 a b c = true ->
  continuation b = true /\ continuation c = true
  /\ exists cp, In cp White_Space /\ utf8 cp = String a (String b (String c "")).
Proof.
  intros H. unfold strings.space3 in H. cbv zeta in H.
  repeat (rewrite orb_true_iff in H || rewrite andb_true_iff in H).
  rewrite !Nat.eqb_eq, !Nat.leb_le in H.
  assert (decoded : forall x y z : ascii,
             continuation y = true -> continuation z = true ->
             In ((N_of_ascii x - 224) * 4096 + (N_of_ascii y - 128) * 64
                 + (N_of_ascii z - 128))%N White_Space ->
             utf8 ((N_of_ascii x - 224) * 4096 + (N_of_ascii y - 128) * 64
                   + (N_of_ascii z - 128))%N
             = String x (String y (String z "")) ->
             continuation y = true /\ continuation z = true
             /\ exists cp, In cp White_Space
                           /\ utf8 cp = String x (String y (String z ""))) by eauto.
  destruct H as [[[[[Ha Hb] Hc] | [[Ha Hb] Hc]] | [[Ha Hb] Hc]] | [[Ha Hb] Hc]].
  2:{ assert (Hn : nat_of_ascii c = 128 \/ nat_of_ascii c = 129
                   \/ nat_of_ascii c = 130 \/ nat_of_ascii c = 131
                   \/ nat_of_ascii c = 132 \/ nat_of_ascii c = 133
                   \/ nat_of_ascii c = 134 \/ nat_of_ascii c = 135
                   \/ nat_of_ascii c = 136 \/ nat_of_ascii c = 137
                   \/ nat_of_ascii c = 138 \/ nat_of_ascii c = 168
                   \/ nat_of_ascii c = 169 \/ nat_of_ascii c = 175) by lia.
      clear Hc.
      repeat (destruct Hn as [Hn | Hn]; [bytes; apply decoded;
                                         [reflexivity | reflexivity | pick_White | reflexivity]|]).
      bytes; apply decoded; [reflexivity | reflexivity | pick_White | reflexivity]. }
  all: bytes; apply decoded; [reflexivity | reflexivity | pick_White | reflexivity].
Qed.

(** White space does not begin with a continuation byte. *)
Lemma white_first (b : ascii) (r : string) :
  white (String b r) -> continuation b = false.
Proof.
  intros H. inversion H as [|cp s Hcp Hs E]. each_White Hcp;
    injection E as <-; reflexivity.
Qed.

Lemma starts_white_1 (a : ascii) (r : string) :
  strings.asciiSpace a = true -> starts_white (String a r).
Proof.
  intros (cp & Hcp & E)%asciiSpace_White. exists cp, r. now rewrite E.
Qed.

Lemma starts_white_2 (a b : ascii) (r : string) :
  strings.space2 a b = true -> starts_white (String a (String b r)).
Proof.
  intros (_ & cp & Hcp & E)%space2_White. exists cp, r. now rewrite E.
Qed.

Lemma starts_white_3 (a b c : ascii) (r : string) :
  strings.space3 a b c = true -> starts_white (String a (String b (String c r))).
Proof.
  intros (_ & _ & cp & Hcp & E)%space3_White. exists cp, r. now rewrite E.
Qed.

Lemma rev_cons (a : ascii) (r : string) :
  strings.rev (String a r) = strings.rev r ++ String a "".
Proof. change (String a r) with (String a "" ++ r). now rewrite rev_app. Qed.

Lemma ends_white_1 (a : ascii) (r : string) :
  strings.asciiSpace a = true -> ends_white (strings.rev (String a r)).
Proof.
  intros (cp & Hcp & E)%asciiSpace_White. exists cp, (strings.rev r).
  now rewrite E, rev_cons.
Qed.

Lemma ends_white_2 (a b : ascii) (r : string) :
  strings.space2 b a = true -> ends_white (strings.rev (String a (String b r))).
Proof.
  intros (_ & cp & Hcp & E)%space2_White. exists cp, (strings.rev r).
  now rewrite E, !rev_cons, append_assoc.
Qed.

Lemma ends_white_3 (a b c : ascii) (r : string) :
  strings.space3 c b a = true ->
  ends_white (strings.rev (String a (String b (String c r)))).
Proof.
  intros (_ & _ & cp & Hcp & E)%space3_White. exists cp, (strings.rev r).
  now rewrite E, !rev_cons, !append_assoc.
Qed.

(** The left trim stops at a string that does not begin with a
    white-space character, whatever white space follows it; the right
    trim at one that does not end with one. *)
Lemma TrimLeftSpace_keeps (t post : string) :
  t <> "" -> ~ starts_white t -> white post ->
  strings.TrimLeftSpace (t ++ post) = t ++ post.
Proof.
  intros Hne Hs Hpost.
  destruct t as [|a t1]; [congruence|]. clear Hne.
  cbn [append strings.TrimLeftSpace].
  destruct (strings.asciiSpace a) eqn:E1;
    [exfalso; apply Hs, starts_white_1, E1|].
  destruct t1 as [|b t2]; cbn [append].
  - destruct post as [|b post2]; [reflexivity|].
    pose proof (white_first _ _ Hpost) as Hb.
    destruct (strings.space2 a b) eqn:E2.
    { apply space2_White in E2 as [C _]. congruence. }
    destruct post2 as [|c post3]; [reflexivity|].
    destruct (strings.space3 a b c) eqn:E3; [|reflexivity].
    apply space3_White in E3 as (C & _). congruence.
  - destruct (strings.space2 a b) eqn:E2;
      [exfalso; apply Hs, starts_white_2, E2|].
    destruct t2 as [|c t3]; cbn [append].
    + destruct post as [|c post2]; [reflexivity|].
      pose proof (white_first _ _ Hpost) as Hc.
      destruct (strings.space3 a b c) eqn:E3; [|reflexivity].
      apply space3_White in E3 as (_ & C & _). congruence.
    + destruct (strings.space3 a b c) eqn:E3; [|reflexivity].
      exfalso; apply Hs, starts_white_3, E3.
Qed.

Lemma TrimLeftSpace_rev_keeps (u : string) :
  ~ ends_white (strings.rev u) -> strings.TrimLeftSpace_rev u = u.
Proof.
  intros He. destruct u as [|a r]; [reflexivity|].
  cbn [strings.TrimLeftSpace_rev].
  destruct (strings.asciiSpace a) eqn:E1;
    [exfalso; apply He, ends_white_1, E1|].
  destruct r as [|b r2]; [reflexivity|].
  destruct (strings.space2 b a) eqn:E2;
    [exfalso; apply He, ends_white_2, E2|].
  destruct r2 as [|c r3]; [reflexivity|].
  destruct (strings.space3 c b a) eqn:E3; [|reflexivity].
  exfalso; apply He, ends_white_3, E3.
Qed.

(** Trimming is determined by the decomposition. *)
Lemma TrimSpace_trimmed_of (s t : string) :
  trimmed_of s t -> strings.TrimSpace s = t.
Proof.
  intros (pre & post & -> & Hpre & Hpost & Hs & He).
  unfold strings.TrimSpace. rewrite (TrimLeftSpace_white _ _ Hpre).
  destruct (string_dec t "") as [-> | Hne].
  - cbn [append]. rewrite <- (append_nil_r post) at 1.
    now rewrite (TrimLeftSpace_white _ _ Hpost).
  - rewrite (TrimLeftSpace_keeps _ _ Hne Hs Hpost).
    unfold strings.TrimRightSpace.
    rewrite rev_app, (TrimLeftSpace_rev_white _ _ Hpost).
    rewrite TrimLeftSpace_rev_keeps by (now rewrite rev_involutive).
    apply rev_involutive.
Qed.

Lemma utf8_length (cp : N) : 1 <= String.length (utf8 cp).
Proof.
  unfold utf8. destruct (cp <? 128)%N; [simpl; lia|].
  destruct (cp <? 2048)%N; simpl; lia.
Qed.

Lemma rev_string_length (s : string) : String.length (strings.rev s) = String.length s.
Proof.
  induction s as [|c s IH]; [reflexivity|].
  rewrite rev_cons, length_append, IH. simpl. lia.
Qed.

Lemma white_app (a b : string) : white a -> white b -> white (a ++ b).
Proof.
  induction 1 as [|cp s Hcp Hs IH]; intros Hb; [exact Hb|].
  rewrite append_assoc. apply white_cons; auto.
Qed.

Lemma white_1 (cp : N) : In cp White_Space -> white (utf8 cp).
Proof.
  intros H. rewrite <- (append_nil_r (utf8 cp)). apply white_cons; [exact H | constructor].
Qed.

(** What the left trim returns does not start with white space. *)
Lemma TrimLeftSpace_fixed (x : string) :
  strings.TrimLeftSpace x = x -> ~ starts_white x.
Proof.
  intros E (cp & rest & Hcp & ->).
  rewrite (TrimLeftSpace_utf8 _ _ Hcp) in E.
  pose proof (suffix_of_length _ _ (TrimLeftSpace_suffix rest)) as L.
  rewrite E, length_append in L. pose proof (utf8_length cp). lia.
Qed.

Lemma TrimLeftSpace_rev_fixed (u : string) :
  strings.TrimLeftSpace_rev u = u -> ~ ends_white (strings.rev u).
Proof.
  intros E (cp & pre & Hcp & R).
  apply (f_equal strings.rev) in R. rewrite rev_involutive, rev_app in R.
  subst u. rewrite (TrimLeftSpace_rev_utf8 _ _ Hcp) in E.
  pose proof (suffix_of_length _ _ (TrimLeftSpace_rev_suffix (strings.rev pre))) as L.
  rewrite E, length_append, rev_string_length in L. pose proof (utf8_length cp). lia.
Qed.

(** What a trim takes away is white space. *)
Lemma TrimLeftSpace_split (s : string) :
  exists pre, s = pre ++ strings.TrimLeftSpace s /\ white pre
              /\ strings.TrimLeftSpace (strings.TrimLeftSpace s)
                 = strings.TrimLeftSpace s.
Proof.
  assert (H : forall n s, String.length s <= n ->
             exists pre, s = pre ++ strings.TrimLeftSpace s /\ white pre
                         /\ strings.TrimLeftSpace (strings.TrimLeftSpace s)
                            = strings.TrimLeftSpace s).
  { clear s. induction n as [|n IH]; intros s Hn.
    - destruct s; [|simpl in Hn; lia]. exists "". repeat split. constructor.
    - destruct s as [|a r]; [exists ""; repeat split; constructor|].
      simpl in Hn.
      assert (Hstay : strings.TrimLeftSpace (String a r) = String a r ->
                exists pre, String a r = pre ++ strings.TrimLeftSpace (String a r)
                  /\ white pre
                  /\ strings.TrimLeftSpace (strings.TrimLeftSpace (String a r))
                     = strings.TrimLeftSpace (String a r)).
      { intros E. exists "". rewrite !E. repeat split. constructor. }
      cbn [strings.TrimLeftSpace] in *.
      destruct (strings.asciiSpace a) eqn:E1.
      { destruct (IH r) as (pre & E & Hw & Hi); [lia|].
        apply asciiSpace_White in E1 as (cp & Hcp & U).
        exists (utf8 cp ++ pre). split; [|split; [now apply white_cons | exact Hi]].
        rewrite U. cbn [append]. now rewrite <- E. }
      destruct r as [|b r2]; [now apply Hstay|]. simpl in Hn.
      destruct (strings.space2 a b) eqn:E2.
      { destruct (IH r2) as (pre & E & Hw & Hi); [lia|].
        apply space2_White in E2 as (_ & cp & Hcp & U).
        exists (utf8 cp ++ pre). split; [|split; [now apply white_cons | exact Hi]].
        rewrite U. cbn [append]. now rewrite <- E. }
      destruct r2 as [|c r3]; [now apply Hstay|]. simpl in Hn.
      destruct (strings.space3 a b c) eqn:E3; [|now apply Hstay].
      destruct (IH r3) as (pre & E & Hw & Hi); [lia|].
      apply space3_White in E3 as (_ & _ & cp & Hcp & U).
      exists (utf8 cp ++ pre). split; [|split; [now apply white_cons | exact Hi]].
      rewrite U. cbn [append]. now rewrite <- E. }
  now apply (H (String.length s)).
Qed.

Lemma TrimLeftSpace_rev_split (u : string) :
  exists post, u = post ++ strings.TrimLeftSpace_rev u
               /\ white (strings.rev post)
               /\ strings.TrimLeftSpace_rev (strings.TrimLeftSpace_rev u)
                  = strings.TrimLeftSpace_rev u.
Proof.
  assert (H : forall n u, String.length u <= n ->
             exists post, u = post ++ strings.TrimLeftSpace_rev u
               /\ white (strings.rev post)
               /\ strings.TrimLeftSpace_rev (strings.TrimLeftSpace_rev u)
                  = strings.TrimLeftSpace_rev u).
  { clear u. induction n as [|n IH]; intros u Hn.
    - destruct u; [|simpl in Hn; lia]. exists "". repeat split. constructor.
    - destruct u as [|a r]; [exists ""; repeat split; constructor|].
      simpl in Hn.
      assert (Hstay : strings.TrimLeftSpace_rev (String a r) = String a r ->
                exists post,
                  String a r = post ++ strings.TrimLeftSpace_rev (String a r)
                  /\ white (strings.rev post)
                  /\ strings.TrimLeftSpace_rev
                       (strings.TrimLeftSpace_rev (String a r))
                     = strings.TrimLeftSpace_rev (String a r)).
      { intros E. exists "". rewrite !E. repeat split. constructor. }
      cbn [strings.TrimLeftSpace_rev] in *.
      destruct (strings.asciiSpace a) eqn:E1.
      { destruct (IH r) as (post & E & Hw & Hi); [lia|].
        apply asciiSpace_White in E1 as (cp & Hcp & U).
        exists (String a post). split; [|split; [|exact Hi]].
        - cbn [append]. now rewrite <- E.
        - rewrite rev_cons, <- U. apply white_app; [exact Hw | now apply white_1]. }
      destruct r as [|b r2]; [now apply Hstay|]. simpl in Hn.
      destruct (strings.space2 b a) eqn:E2.
      { destruct (IH r2) as (post & E & Hw & Hi); [lia|].
        apply space2_White in E2 as (_ & cp & Hcp & U).
        exists (String a (String b post)). split; [|split; [|exact Hi]].
        - cbn [append]. now rewrite <- E.
        - rewrite !rev_cons, append_assoc. cbn [append]. rewrite <- U.
          apply white_app; [exact Hw | now apply white_1]. }
      destruct r2 as [|c r3]; [now apply Hstay|]. simpl in Hn.
      destruct (strings.space3 c b a) eqn:E3; [|now apply Hstay].
      destruct (IH r3) as (post & E & Hw & Hi); [lia|].
      apply space3_White in E3 as (_ & _ & cp & Hcp & U).
      exists (String a (String b (String c post))). split; [|split; [|exact Hi]].
      + cbn [append]. now rewrite <- E.
      + rewrite !rev_cons, !append_assoc. cbn [append]. rewrite <- U.
        apply white_app; [exact Hw | now apply white_1]. }
  now apply (H (String.length u)).
Qed.

(** Every string has a trimmed form, and it is what [TrimSpace] returns. *)
Lemma trimmed_of_TrimSpace (s : string) : trimmed_of s (strings.TrimSpace s).
Proof.
  destruct (TrimLeftSpace_split s) as (pre & Es & Hpre & Hfix).
  apply TrimLeftSpace_fixed in Hfix.
  unfold strings.TrimSpace, strings.TrimRightSpace.
  set (x := strings.TrimLeftSpace s) in *.
  destruct (TrimLeftSpace_rev_split (strings.rev x)) as (post & Ex & Hpost & Hfix').
  apply TrimLeftSpace_rev_fixed in Hfix'.
  set (t := strings.rev (strings.TrimLeftSpace_rev (strings.rev x))) in *.
  assert (Ext : x = t ++ strings.rev post).
  { rewrite <- (rev_involutive x), Ex, rev_app. reflexivity. }
  exists pre, (strings.rev post). repeat split; try assumption.
  - now rewrite <- Ext.
  - intros (cp & rest & Hcp & Et). apply Hfix.
    exists cp, (rest ++ strings.rev post). split; [exact Hcp|].
    now rewrite Ext, Et, append_assoc.
Qed.

Lemma trimmed_of_iff (s t : string) :
  trimmed_of s t <-> strings.TrimSpace s = t.
Proof.
  split; [apply TrimSpace_trimmed_of | intros <-; apply trimmed_of_TrimSpace].
Qed.

(** C8. Once a line has been read the handler trims it.  Write the line
    as white space, [trimmed], white space, where [trimmed] neither
    begins nor ends with a white-space character; every line can be
    written so.  When [trimmed] does not begin with the four bytes
    [get ] (in lower case, with one space) the handler writes
    [500 invalid request] alone and closes the connection.  When
    [trimmed] is [get ] followed by [rest], the address the handler
    works on, the first argument of its log call, is [rest] without the
    white space around it, and one line is written for that address
    before the connection is closed. *)
Theorem command_parsing (conn : Conn) (cfg : Config) (line : string) :
  ReadString conn LF = Ok line ->
  (exists trimmed, trimmed_of line trimmed) /\
  (forall trimmed,
     trimmed_of line trimmed ->
     ((forall rest, trimmed <> "get " ++ rest) ->
      handle conn cfg = [EvWrite ("500 invalid request" ++ nl); EvClose]) /\
     (forall rest,
        trimmed = "get " ++ rest ->
        (exists address, trimmed_of rest address) /\
        (forall address,
           trimmed_of rest address ->
           exists level format args payload,
             handle conn cfg
             = [EvLog level format (address :: args); EvWrite payload; EvClose]
             /\ (payload = "200 " ++ address ++ nl
                 \/ (exists decoded, decodeSRS address = Ok decoded
                                     /\ payload = "200 " ++ decoded ++ nl)
                 \/ payload = "200 " ++ FallbackAddress cfg ++ nl
                 \/ payload = "500 invalid request" ++ nl)))).
Proof.
  intros Hread. split; [exists (strings.TrimSpace line); apply trimmed_of_TrimSpace|].
  intros trimmed Htrim. apply TrimSpace_trimmed_of in Htrim. split.
  - intros Hnot.
    assert (Hget : strings.HasPrefix (strings.TrimSpace line) "get " = false).
    { destruct (strings.HasPrefix (strings.TrimSpace line) "get ") eqn:P;
        [|reflexivity].
      apply HasPrefix_append in P as [rest E]. rewrite Htrim in E.
      now apply Hnot in E. }
    run_handle Hread Hget. reflexivity.
  - intros rest Erest.
    split; [exists (strings.TrimSpace rest); apply trimmed_of_TrimSpace|].
    intros address Haddr. apply TrimSpace_trimmed_of in Haddr.
    assert (Hget : strings.HasPrefix (strings.TrimSpace line) "get " = true)
      by (rewrite Htrim, Erest; apply HasPrefix_prefix).
    run_handle Hread Hget. rewrite Htrim, Erest.
    change (slice_from 4 ("get " ++ rest)) with rest. rewrite Haddr.
    destruct (negb (strings.HasPrefix address "SRS0=")
              && negb (strings.HasPrefix address "SRS1=")).
    + destruct (isCleanEmail address);
        [|destruct (negb (FallbackAddress cfg =? ""))];
        do 4 eexists; (split; [reflexivity|]); auto.
    + destruct (decodeSRS address) as [d|err] eqn:D;
        [|destruct (negb (FallbackAddress cfg =? ""))];
        do 4 eexists; (split; [reflexivity|]); eauto 6.
Qed.

Ltac no_white_start :=
  let cp := fresh "cp" in let rest := fresh "rest" in
  let Hcp := fresh "Hcp" in let E := fresh "E" in
  intros (cp & rest & Hcp & E); each_White Hcp; discriminate E.

Ltac no_white_end :=
  let cp := fresh "cp" in let pre := fresh "pre" in
  let Hcp := fresh "Hcp" in let E := fresh "E" in
  intros (cp & pre & Hcp & E); apply (f_equal strings.rev) in E;
  rewrite rev_app in E; each_White Hcp; discriminate E.

Lemma spaces_white (pad : string) : spaces pad = true -> white pad.
Proof.
  induction pad as [|c pad IH]; simpl; [constructor|].
  intros [Hc Hp]%andb_true_iff.
  apply asciiSpace_White in Hc as (cp & Hcp & U).
  change (String c pad) with (String c "" ++ pad). rewrite <- U.
  apply white_cons; auto.
Qed.

Lemma command_parsing_witness :
  trimmed_of line1 "get   user@example.com"
  /\ trimmed_of "  user@example.com" "user@example.com"
  /\ exists level format args payload,
       handle conn1 (cfg0 "")
       = [EvLog level format ("user@example.com" :: args);
          EvWrite payload; EvClose]
       /\ (payload = "200 " ++ "user@example.com" ++ nl
           \/ (exists decoded, decodeSRS "user@example.com" = Ok decoded
                               /\ payload = "200 " ++ decoded ++ nl)
           \/ payload = "200 " ++ FallbackAddress (cfg0 "") ++ nl
           \/ payload = "500 invalid request" ++ nl).
Proof.
  assert (T1 : trimmed_of line1 "get   user@example.com").
  { exists "  ", ("  " ++ nl).
    repeat split; try (apply spaces_white; reflexivity);
      [no_white_start | no_white_end]. }
  assert (T2 : trimmed_of "  user@example.com" "user@example.com").
  { exists "  ", "".
    repeat split; try (apply spaces_white; reflexivity);
      [no_white_start | no_white_end]. }
  split; [exact T1 | split; [exact T2|]].
  destruct (command_parsing conn1 (cfg0 "") line1 eq_refl) as [_ H].
  destruct (H _ T1) as [_ H2].
  destruct (H2 "  user@example.com" eq_refl) as [_ H3].
  exact (H3 _ T2).
Defined.

(** On that request: the line is cut at the newline, trimmed, and the
    address is what follows [get ], trimmed again. *)
Example command_parsing_run :
  ReadString conn1 LF = Ok line1
  /\ strings.TrimSpace line1 = "get   user@example.com"
  /\ strings.TrimSpace (slice_from 4 (strings.TrimSpace line1))
     = "user@example.com"
  /\ responses (handle conn1 (cfg0 "")) = ["200 user@example.com" ++ nl]
  /\ responses (handle {| incoming := "GET user@example.com" ++ nl |} (cfg0 ""))
     = ["500 invalid request" ++ nl]
  /\ responses (handle {| incoming := "get" ++ nl |} (cfg0 "x@example.com"))
     = ["500 invalid request" ++ nl].
Proof. repeat split. Qed.

(** [get] followed by blanks only: the trim takes the space away with
    them, and what is left is not the command. *)
Lemma bare_get (pad : string) :
  blank pad = true -> strings.TrimSpace ("get" ++ pad ++ nl) = "get".
Proof.
  intros Hpad. apply TrimSpace_trimmed_of. exists "", (pad ++ nl).
  repeat split; [constructor | | no_white_start | no_white_end].
  apply spaces_white. rewrite spaces_append, (blank_spaces _ Hpad). reflexivity.
Qed.

(** The handler fails open on the address, not on the command.  For
    every line read, the answer is [500 invalid request] exactly when
    the trimmed line does not begin with [get ], or no fallback address
    is configured and the address neither is clean nor decodes.  So with
    a fallback address configured every request whose trimmed line
    begins with [get ] is answered [200]; but [get] followed by nothing
    but blanks is answered [500 invalid request] whatever the fallback
    address. *)
Theorem get_fails_only_without_fallback (conn : Conn) (cfg : Config)
        (line : string) :
  ReadString conn LF = Ok line ->
  let trimmed := strings.TrimSpace line in
  let address := strings.TrimSpace (slice_from 4 trimmed) in
  (responses (handle conn cfg) = ["500 invalid request" ++ nl]
   <-> strings.HasPrefix trimmed "get " = false
       \/ (FallbackAddress cfg = "" /\ resolution address = None))
  /\ (strings.HasPrefix trimmed "get " = true -> FallbackAddress cfg <> "" ->
      exists answer, responses (handle conn cfg) = ["200 " ++ answer ++ nl])
  /\ (forall pad, blank pad = true -> line = "get" ++ pad ++ nl ->
      responses (handle conn cfg) = ["500 invalid request" ++ nl]).
Proof.
  intros Hread trimmed address. subst address trimmed.
  set (trimmed := strings.TrimSpace line).
  set (address := strings.TrimSpace (slice_from 4 trimmed)).
  assert (Hnot : strings.HasPrefix trimmed "get " = false ->
                 responses (handle conn cfg) = ["500 invalid request" ++ nl]).
  { intros Hget. unfold trimmed in Hget. run_handle Hread Hget. reflexivity. }
  split; [|split].
  - destruct (strings.HasPrefix trimmed "get ") eqn:Hget.
    2:{ split; [now left | intros _; now apply Hnot]. }
    destruct (handle_get conn cfg line Hread Hget) as (lv & fmt & rest & -> & _).
    fold trimmed address. cbn [responses].
    destruct (resolution address) as [answer|].
    + split; [intros E; inversion E | intros [E | [_ E]]; discriminate E].
    + destruct (String.eqb_spec (FallbackAddress cfg) "") as [E|E].
      * split; [right; now split | reflexivity].
      * split; [intros F; inversion F | intros [F | [F _]]; [discriminate F | contradiction]].
  - intros Hget Hfb.
    destruct (handle_get conn cfg line Hread Hget) as (lv & fmt & rest & -> & _).
    fold trimmed address. cbn [responses].
    destruct (resolution address) as [answer|]; [now exists answer|].
    apply String.eqb_neq in Hfb. rewrite Hfb. now exists (FallbackAddress cfg).
  - intros pad Hpad E. apply Hnot. unfold trimmed. rewrite E, (bare_get _ Hpad).
    reflexivity.
Qed.

Lemma get_fails_only_without_fallback_witness :
  (responses (handle {| incoming := "get  " ++ nl |} (cfg0 "root@example.com"))
   = ["500 invalid request" ++ nl]
   <-> strings.HasPrefix (strings.TrimSpace ("get  " ++ nl)) "get " = false
       \/ (FallbackAddress (cfg0 "root@example.com") = ""
           /\ resolution (strings.TrimSpace
                            (slice_from 4 (strings.TrimSpace ("get  " ++ nl))))
              = None))
  /\ (strings.HasPrefix (strings.TrimSpace ("get  " ++ nl)) "get " = true ->
      FallbackAddress (cfg0 "root@example.com") <> "" ->
      exists answer,
        responses (handle {| incoming := "get  " ++ nl |} (cfg0 "root@example.com"))
        = ["200 " ++ answer ++ nl])
  /\ (forall pad, blank pad = true -> "get  " ++ nl = "get" ++ pad ++ nl ->
      responses (handle {| incoming := "get  " ++ nl |} (cfg0 "root@example.com"))
      = ["500 invalid request" ++ nl]).
Proof.
  apply (get_fails_only_without_fallback {| incoming := "get  " ++ nl |}
           (cfg0 "root@example.com") ("get  " ++ nl)); reflexivity.
Defined.

(** ** The log level *)

Lemma lower_byte_same_letter (a b : ascii) :
  is_upper b = false -> (lower_byte a = b <-> same_letter a b = true).
Proof.
  intros Hb. unfold lower_byte, same_letter. destruct (is_upper a) eqn:Ha; simpl.
  - assert (Hn : nat_of_ascii a + 32 < 256).
    { unfold is_upper in Ha. apply andb_true_iff in Ha as [_ H].
      apply Nat.leb_le in H. lia. }
    rewrite orb_true_iff, Ascii.eqb_eq, Nat.eqb_eq. split.
    + intros E. right. rewrite <- E. now rewrite nat_ascii_embedding.
    + intros [-> | E]; [congruence|]. rewrite E. apply ascii_nat_embedding.
  - rewrite orb_false_r. symmetry. apply Ascii.eqb_eq.
Qed.

Lemma lower_bytes_same_letters (s t : string) :
  has_upper t = false -> (lower_bytes s = t <-> same_letters s t = true).
Proof.
  revert t. induction s as [|a s IH]; intros [|b t] Ht; simpl in *;
    try (split; [reflexivity | reflexivity]); try (split; discriminate).
  apply orb_false_iff in Ht as [Hb Ht].
  rewrite andb_true_iff, <- (IH t Ht), <- (lower_byte_same_letter a b Hb).
  split; [intros [= -> ->]; auto | intros [-> ->]; reflexivity].
Qed.

Lemma same_letters_eqb (s t : string) :
  has_upper t = false -> same_letters s t = (lower_bytes s =? t).
Proof.
  intros Ht. pose proof (lower_bytes_same_letters s t Ht) as H.
  destruct (String.eqb_spec (lower_bytes s) t) as [E|E].
  - now apply H.
  - destruct (same_letters s t); [|reflexivity]. exfalso. apply E. now apply H.
Qed.

(** [log_level] is read without regard to the case of its letters, and
    whatever is not [debug] or [info] means [error]: for a value made of
    ASCII bytes, the level is [LogDebug] exactly for the spellings of
    [debug], [LogInfo] exactly for the spellings of [info], and
    [LogError] for every other value, the empty one included. *)
Theorem log_level_selection (unicode_ToLower : string -> string) (cfg : Config) :
  isASCII (LogLevel_ cfg) = true ->
  (InitLogging_level unicode_ToLower cfg = LogDebug
   <-> same_letters (LogLevel_ cfg) "debug" = true)
  /\ (InitLogging_level unicode_ToLower cfg = LogInfo
      <-> same_letters (LogLevel_ cfg) "info" = true)
  /\ (InitLogging_level unicode_ToLower cfg = LogError
      <-> same_letters (LogLevel_ cfg) "debug" = false
          /\ same_letters (LogLevel_ cfg) "info" = false).
Proof.
  intros Hascii. unfold InitLogging_level, ToLower. rewrite Hascii. cbv zeta.
  rewrite (same_letters_eqb (LogLevel_ cfg) "debug" eq_refl).
  rewrite (same_letters_eqb (LogLevel_ cfg) "info" eq_refl).
  destruct (String.eqb_spec (lower_bytes (LogLevel_ cfg)) "debug") as [Ed|Ed].
  - rewrite Ed. simpl. repeat split; try discriminate; auto.
    intros [? _]. discriminate.
  - destruct (String.eqb_spec (lower_bytes (LogLevel_ cfg)) "info") as [Ei|Ei].
    + repeat split; try discriminate; auto. intros [_ ?]. discriminate.
    + destruct (lower_bytes (LogLevel_ cfg) =? "error");
        repeat split; try discriminate; auto.
Qed.

Lemma log_level_selection_witness :
  (InitLogging_level (fun s => s)
     {| Listen := ""; LogFile := ""; LogLevel_ := "DeBuG";
        FallbackAddress := ""; DropUser := ""; DropGroup := "" |} = LogDebug
   <-> same_letters "DeBuG" "debug" = true)
  /\ (InitLogging_level (fun s => s)
        {| Listen := ""; LogFile := ""; LogLevel_ := "DeBuG";
           FallbackAddress := ""; DropUser := ""; DropGroup := "" |} = LogInfo
      <-> same_letters "DeBuG" "info" = true)
  /\ (InitLogging_level (fun s => s)
        {| Listen := ""; LogFile := ""; LogLevel_ := "DeBuG";
           FallbackAddress := ""; DropUser := ""; DropGroup := "" |} = LogError
      <-> same_letters "DeBuG" "debug" = false
          /\ same_letters "DeBuG" "info" = false).
Proof.
  apply (log_level_selection (fun s => s)
           {| Listen := ""; LogFile := ""; LogLevel_ := "DeBuG";
              FallbackAddress := ""; DropUser := ""; DropGroup := "" |}).
  reflexivity.
Defined.

(** Verbosity is ordered, error below info below debug.  Raising
    [currentLogLevel] never silences a log call that printed before; at
    level debug every call prints; at level error exactly the [logError]
    calls print. *)
Theorem verbosity_is_ordered (tr : list event) :
  (forall l1 l2 e,
     level_rank l1 <= level_rank l2 ->
     In e (log_output l1 tr) -> In e (log_output l2 tr))
  /\ log_output LogDebug tr = filter is_log tr
  /\ log_output LogError tr
     = filter (fun e => match e with EvLog LogError _ _ => true | _ => false end) tr.
Proof.
  split; [|split].
  - intros l1 l2 e Hle. induction tr as [|x tr IH]; simpl; [tauto|].
    destruct x as [lv fmt args| |]; try exact IH.
    assert (Hp : prints l1 lv = true -> prints l2 lv = true).
    { destruct lv, l1, l2; simpl in *; intros; try reflexivity;
        try discriminate; lia. }
    destruct (prints l1 lv) eqn:P1.
    + rewrite (Hp eq_refl). intros [<- | Hin]; [now left | right; auto].
    + destruct (prints l2 lv); [intros Hin; right; auto | exact IH].
  - induction tr as [|x tr IH]; simpl; [reflexivity|].
    destruct x as [lv fmt args| |]; simpl; try exact IH.
    destruct lv; simpl; now rewrite IH.
  - induction tr as [|x tr IH]; simpl; [reflexivity|].
    destruct x as [lv fmt args| |]; simpl; try exact IH.
    destruct lv; simpl; now rewrite IH.
Qed.
